(** * An HTTP one-shot transport for a JSON-RPC engine

    Shallow embedding of [src/mcp/HttpServerTransport.ts] (the transport
    adapter) and [src/mcp/index.ts] (the middy middleware bridging an HTTP
    invocation to the adapter), with the properties of the two files.

    Modelling conventions.
    - A JSON-RPC message is a JavaScript object; the adapter only asks
      whether the keys [method] and [id] are present and reads [id], so the
      record keeps these two as options ([None]: key absent, the property
      reads as [undefined]) and the remaining keys as an association list.
    - A [Promise] is a cell of a promise heap: [None] while pending, [Some v]
      once resolved.  The [resolve] closure stored in the pending-request
      table is the index of its promise.  The [reject] closure stored beside
      it is never called by the source.
    - The engine is an external collaborator: its [onmessage] callback is a
      function on an engine state of an arbitrary type, returning the
      messages it passes to [send] before it returns.  The callback is
      taken to return normally and to touch the adapter through [send]
      only.
    - An [async] function runs synchronously up to its first [await]; the
      value it eventually returns is a function of the promise heap. *)

From stdpp Require Import gmap strings list fin_maps.
From Stdlib Require Import ZArith.

Set Warnings "-register-all".
Open Scope Z_scope.

(** ** Data model *)

(** A correlation id: the schema admits integers and strings.  JavaScript's
    [Map] compares keys by SameValueZero, which on these is plain equality
    (a number never equals a string). *)
Inductive RequestId :=
  | IdNum (n : Z)
  | IdStr (s : string).

#[global] Instance RequestId_eq_dec : EqDecision RequestId.
Proof. solve_decision. Defined.

#[global] Instance RequestId_countable : Countable RequestId.
Proof.
  refine (inj_countable'
    (λ i, match i with IdNum n => inl n | IdStr s => inr s end)
    (λ x, match x with inl n => IdNum n | inr s => IdStr s end) _).
  by intros [].
Defined.

(** Parsed JSON (numbers restricted to integers; the code never inspects
    a number). *)
Inductive JSON :=
  | JNull
  | JBool (b : bool)
  | JNumber (n : Z)
  | JString (s : string)
  | JArray (items : list JSON)
  | JObject (members : list (string * JSON)).

(** [message.id] as a JavaScript value: [None] is [undefined]. *)
Abbreviation IdValue := (option RequestId).

Record JSONRPCMessage := mkMessage {
  msg_method : option string;
  msg_id : IdValue;
  msg_rest : list (string * JSON);
}.

(** [Promise<JSONRPCMessage>] cells and the closure that resolves one. *)
Abbreviation PromiseHeap := (list (option JSONRPCMessage)).
Abbreviation Resolver := nat.

(** The three shapes [handleJSONRPCMessages] can return. *)
Inductive Reply :=
  | Undefined
  | Single (m : JSONRPCMessage)
  | Batch (ms : list JSONRPCMessage).

(** ["method" in message && "id" in message] *)
Definition isRequestMessage (message : JSONRPCMessage) : bool :=
  bool_decide (is_Some (msg_method message)) && bool_decide (is_Some (msg_id message)).

(** ["id" in message] *)
Definition isResponseMessage (message : JSONRPCMessage) : bool :=
  bool_decide (is_Some (msg_id message)).

(** Calling the [resolve] closure of promise [p]: settles a pending promise,
    does nothing on a settled one. *)
Definition resolve (p : Resolver) (message : JSONRPCMessage) (heap : PromiseHeap) : PromiseHeap :=
  match heap !! p with
  | Some None => <[p := Some message]> heap
  | _ => heap
  end.

Section Transport.

Context {E : Type}.

(** The engine's incoming-message callback. *)
Definition Handler : Type := JSONRPCMessage → E → E * list JSONRPCMessage.

(** The fields of the class. *)
Record HttpServerTransport := mkTransport {
  _started : bool;
  _pendingRequests : gmap IdValue Resolver;
  onmessage : option Handler;
}.

(** The adapter instance together with the promises it created and the
    engine behind its callback. *)
Record World := mkWorld {
  transport : HttpServerTransport;
  promises : PromiseHeap;
  engine : E;
}.

Definition pending (w : World) : gmap IdValue Resolver :=
  _pendingRequests (transport w).

Definition set_pending (t : gmap IdValue Resolver) (w : World) : World :=
  mkWorld (mkTransport (_started (transport w)) t (onmessage (transport w)))
          (promises w) (engine w).

Definition set_promises (h : PromiseHeap) (w : World) : World :=
  mkWorld (transport w) h (engine w).

Definition set_engine (e : E) (w : World) : World :=
  mkWorld (transport w) (promises w) e.

Definition set_started (b : bool) (w : World) : World :=
  mkWorld (mkTransport b (pending w) (onmessage (transport w)))
          (promises w) (engine w).

Definition set_onmessage (h : option Handler) (w : World) : World :=
  mkWorld (mkTransport (_started (transport w)) (pending w) h)
          (promises w) (engine w).

(** [new HttpServerTransport()] *)
Definition new_HttpServerTransport : HttpServerTransport :=
  mkTransport false ∅ None.

(** ** The adapter's operations *)

(** [start]: throws when already started, else sets the flag. *)
Definition start (w : World) : World * (string + unit) :=
  if _started (transport w)
  then (w, inl "HttpServerTransport already started"%string)
  else (set_started true w, inr tt).

(** [send] *)
Definition send (message : JSONRPCMessage) (w : World) : World :=
  if isResponseMessage message then
    match pending w !! msg_id message with
    | Some pendingRequest =>
        set_pending (delete (msg_id message) (pending w))
          (set_promises (resolve pendingRequest message (promises w)) w)
    | None => w
    end
  else w.

(** [close] *)
Definition close (w : World) : World := w.

(** [_startFreshSession] *)
Definition _startFreshSession (w : World) : World := set_pending ∅ w.

(** [this.onmessage?.(message)]: the callback runs on the engine state and
    the messages it sends reach [send] in the order it sent them. *)
Definition deliver (message : JSONRPCMessage) (w : World) : World :=
  match onmessage (transport w) with
  | Some h =>
      let '(e', outgoing) := h message (engine w) in
      foldl (λ w' out, send out w') (set_engine e' w) outgoing
  | None => w
  end.

(** [jsonRPCMessages.map((message) => { this.onmessage?.(message); })] *)
Definition dispatch (jsonRPCMessages : list JSONRPCMessage) (w : World) : World :=
  foldl (λ w' message, deliver message w') w jsonRPCMessages.

(** [new Promise((resolve, reject) => { this._pendingRequests.set(id, ...) })]:
    the executor runs at once; the new promise is the next cell of the heap. *)
Definition newPendingPromise (requestMessage : JSONRPCMessage) (w : World) : World * Resolver :=
  let p := length (promises w) in
  (set_pending (<[msg_id requestMessage := p]> (pending w))
     (set_promises (promises w ++ [None]) w), p).

(** [requestMessages.map(...)]: one promise per request, left to right. *)
Fixpoint awaitResponses (requestMessages : list JSONRPCMessage) (w : World)
    : World * list Resolver :=
  match requestMessages with
  | [] => (w, [])
  | requestMessage :: rest =>
      let '(w1, p) := newPendingPromise requestMessage w in
      let '(w2, ps) := awaitResponses rest w1 in
      (w2, p :: ps)
  end.

(** The part of [handleJSONRPCMessages] that runs before it suspends:
    the world it leaves and, unless it returned [undefined] at once, the
    promises handed to [Promise.all]. *)
Definition handleJSONRPCMessages (jsonRPCMessages : list JSONRPCMessage) (w : World)
    : World * option (list Resolver) :=
  let w1 := _startFreshSession w in
  let w2 := dispatch jsonRPCMessages w1 in
  let requestMessages := filter (λ m, isRequestMessage m = true) jsonRPCMessages in
  if (length requestMessages =? 0)%nat then (w2, None)
  else
    let '(w3, ps) := awaitResponses requestMessages w2 in
    (w3, Some ps).

(** [Promise.all]: settled once every promise is, with the values in the
    order of the promises. *)
Definition Promise_all (ps : list Resolver) (heap : PromiseHeap) : option (list JSONRPCMessage) :=
  mapM (λ p, mjoin (heap !! p)) ps.

(** [responseMessages.length > 1 ? responseMessages : responseMessages[0]] *)
Definition pickReply (responseMessages : list JSONRPCMessage) : Reply :=
  if (1 <? length responseMessages)%nat then Batch responseMessages
  else match responseMessages with
       | m :: _ => Single m
       | [] => Undefined
       end.

(** What the promise returned by [handleJSONRPCMessages] holds in world [w]:
    [None] while the function is still suspended at its [await]. *)
Definition returned (awaited : option (list Resolver)) (w : World) : option Reply :=
  match awaited with
  | None => Some Undefined
  | Some ps => pickReply <$> Promise_all ps (promises w)
  end.

(** What a client of the instance can do with it. *)
Inductive Call :=
  | CallStart
  | CallSend (message : JSONRPCMessage)
  | CallClose
  | CallSetOnmessage (h : option Handler)
  | CallHandle (jsonRPCMessages : list JSONRPCMessage).

Definition run (w : World) (c : Call) : World :=
  match c with
  | CallStart => (start w).1
  | CallSend message => send message w
  | CallClose => close w
  | CallSetOnmessage h => set_onmessage h w
  | CallHandle jsonRPCMessages => (handleJSONRPCMessages jsonRPCMessages w).1
  end.

End Transport.

Arguments HttpServerTransport : clear implicits.
Arguments World : clear implicits.
Arguments Handler : clear implicits.
Arguments Call : clear implicits.

(** ** Vocabulary of the correlation properties *)

(** The requests a batch expects replies for. *)
Definition requestsOf (ms : list JSONRPCMessage) : list JSONRPCMessage :=
  filter (λ m, isRequestMessage m = true) ms.

(** The first message of [sent] that carries id [k]. *)
Definition answerTo (k : IdValue) (sent : list JSONRPCMessage) : option JSONRPCMessage :=
  head (filter (λ r, msg_id r = k) sent).

(** The correlation invariant of one invocation: [ids] are the ids of its
    requests, [base] the index of its first promise, [sent] what has been
    passed to [send] since it suspended. *)
Record correlated {E : Type} (ids : list IdValue) (base : nat)
    (sent : list JSONRPCMessage) (w : World E) : Prop := {
  corr_promise : ∀ i k, ids !! i = Some k →
    promises w !! (base + i)%nat = Some (answerTo k sent);
  corr_pending : ∀ k p, pending w !! k = Some p ↔
    answerTo k sent = None ∧ ∃ i, ids !! i = Some k ∧ p = (base + i)%nat;
}.

(** A promise that is pending and that no entry of the table resolves. *)
Definition orphaned {E : Type} (p : Resolver) (w : World E) : Prop :=
  promises w !! p = Some None ∧ ∀ k, pending w !! k ≠ Some p.

(** ** The HTTP bridge ([src/mcp/index.ts]) *)

(** [s.includes(search)]: [search] occurs in [s] as a substring. *)
Fixpoint includes (s search : string) : bool :=
  if String.prefix search s then true
  else match s with
       | EmptyString => false
       | String _ s' => includes s' search
       end.

(** [a ?? b] on values that are a string or [undefined]. *)
Definition nullish {A : Type} (a b : option A) : option A :=
  match a with
  | Some v => Some v
  | None => b
  end.

(** The [headers] object of the event, itself optional; a key whose value is
    [undefined] reads like a missing key. *)
Abbreviation Headers := (option (gmap string string)).

(** [headers?.[name]] *)
Definition header (headers : Headers) (name : string) : option string :=
  match headers with
  | Some h => h !! name
  | None => None
  end.

Record RequestEvent := mkEvent {
  headers : Headers;
  body : option string;
  isBase64Encoded : bool;
}.

(** The part of the invocation context the middleware writes. *)
Record RequestContext := mkContext {
  jsonRPCMessages : option (list JSONRPCMessage);
}.

Record McpErrorBody := mkMcpError {
  code : Z;
  message : string;
}.

(** The [JSONRPCError] object literal of [createMcpError]. *)
Record JSONRPCError := mkJSONRPCError {
  jsonrpc : string;
  error : McpErrorBody;
  id : Z;
}.

(** The error made by [createHttpError(status, message)]. *)
Record HttpError := mkHttpError {
  statusCode : Z;
  errorMessage : string;
}.

(** The response object of the invocation: the two properties the
    middleware writes and whatever else the object held. *)
Record HttpResponse := mkResponse {
  responseStatusCode : Z;
  responseBody : string;
  responseOthers : list (string * JSON);
}.

(** [request.response] when the [after] hook starts. *)
Inductive ResponseSlot :=
  | ResponseUndefined
  | ResponseNull
  | ResponseString (s : string)
  | ResponseObject (r : HttpResponse).

Section Bridge.

(** External functions: [JSON.stringify] at the three types it is used at,
    [Buffer.from(_, "base64").toString()], [JSON.parse] and the SDK's
    message schema.  [None] stands for a thrown exception; Node's base64
    decoder is lenient, the option keeps the model independent of that. *)
Variable stringifyError : JSONRPCError → string.
Variable stringifyMessage : JSONRPCMessage → string.
Variable stringifyMessages : list JSONRPCMessage → string.
Variable Buffer_from_base64 : string → option string.
Variable JSON_parse : string → option JSON.
Variable JSONRPCMessageSchema : JSON → option JSONRPCMessage.

Definition createMcpError (httpStatusCode : Z) (mcpError : McpErrorBody) : HttpError :=
  let jsonRPCError := mkJSONRPCError "2.0" mcpError 123 in
  mkHttpError httpStatusCode (stringifyError jsonRPCError).

Definition contentTypeHeaderValue (event : RequestEvent) : option string :=
  nullish (header (headers event) "content-type") (header (headers event) "Content-Type").

Definition acceptHeaderValue (event : RequestEvent) : option string :=
  nullish (header (headers event) "accept") (header (headers event) "Accept").

(** [value === undefined || !value.includes("application/json")] *)
Definition lacksJSON (value : option string) : bool :=
  match value with
  | None => true
  | Some v => negb (includes v "application/json")
  end.

(** [Array.isArray(parsedJSONBody) ? parsedJSONBody : [parsedJSONBody]] *)
Definition asArray (parsedJSONBody : JSON) : list JSON :=
  match parsedJSONBody with
  | JArray items => items
  | _ => [parsedJSONBody]
  end.

(** The body of the transform: decode, parse, normalise. *)
Definition transformBody (isBase64Encoded : bool) (body : string) : option (list JSON) :=
  decodedBody ← (if isBase64Encoded then Buffer_from_base64 body else Some body);
  parsedJSONBody ← JSON_parse decodedBody;
  Some (asArray parsedJSONBody).

(** [z.string().transform(...).pipe(z.array(JSONRPCMessageSchema)).parse(body)] *)
Definition parseBody (event : RequestEvent) : option (list JSONRPCMessage) :=
  body ← body event;
  items ← transformBody (isBase64Encoded event) body;
  mapM JSONRPCMessageSchema items.

(** The [before] hook: the context it leaves and whether it threw. *)
Definition before (event : RequestEvent) (context : RequestContext)
    : RequestContext * (HttpError + unit) :=
  if lacksJSON (acceptHeaderValue event) then
    (context, inl (createMcpError 406
       (mkMcpError (-32000) "Not Acceptable: Client must accept application/json")))
  else if lacksJSON (contentTypeHeaderValue event) then
    (context, inl (createMcpError 415
       (mkMcpError (-32000) "Unsupported Media Type: Content-Type must be application/json")))
  else
    match parseBody event with
    | Some messages => (mkContext (Some messages), inr tt)
    | None =>
        (context, inl (createMcpError 422
           (mkMcpError (-32000) "Unprocessable Entity: Invalid or malformed JSON was provided")))
    end.

(** The first statement of [after]: a [null] or string response is replaced. *)
Definition initialResponse (response : ResponseSlot) : ResponseSlot :=
  match response with
  | ResponseNull | ResponseString _ => ResponseObject (mkResponse 202 "" [])
  | _ => response
  end.

(** [...request.response] *)
Definition spread (response : ResponseSlot) : list (string * JSON) :=
  match response with
  | ResponseObject r => responseOthers r
  | _ => []
  end.

(** The end of [after], once [handleJSONRPCMessages] has returned. *)
Definition render (response : ResponseSlot) (responseMessages : Reply) : HttpResponse :=
  let response := initialResponse response in
  match responseMessages with
  | Undefined => mkResponse 202 "" (spread response)
  | Single m => mkResponse 200 (stringifyMessage m) (spread response)
  | Batch ms => mkResponse 200 (stringifyMessages ms) (spread response)
  end.

(** The [after] hook with the engine connected: the synchronous part of the
    adapter call on the stored messages ([None]: nothing was stored and the
    call throws). *)
Definition after {E : Type} (context : RequestContext) (w : World E)
    : option (World E * option (list Resolver)) :=
  messages ← jsonRPCMessages context;
  Some (handleJSONRPCMessages messages w).

(** The response [after] has produced in world [w], if it has finished. *)
Definition afterResponse {E : Type} (response : ResponseSlot)
    (awaited : option (list Resolver)) (w : World E) : option HttpResponse :=
  render response <$> returned awaited w.

End Bridge.

(** ** The API key authorizer ([src/authorizer/api-key-authorizer.ts]) *)

Module Authorizer.

(** [src/const/environment.const.ts] *)
Definition API_KEY : string := "API_KEY".
Definition STACK_ENDPOINT : string := "STACK_ENDPOINT".

Inductive StatementEffect :=
  | Allow
  | Deny.

Record Statement := mkStatement {
  Action : string;
  Effect : StatementEffect;
  Resource : string;
}.

Record PolicyDocument := mkPolicyDocument {
  Version : string;
  Statements : list Statement;
}.

(** The [context] object attached to the result. *)
Record AuthContext := mkAuthContext {
  apiKeyValid : bool;
  timestamp : string;
}.

Record APIGatewayAuthorizerResult := mkAuthorizerResult {
  principalId : string;
  policyDocument : PolicyDocument;
  context : option AuthContext;
}.

(** The fields of the token authorizer event the handler reads. *)
Record APIGatewayTokenAuthorizerEvent := mkAuthorizerEvent {
  authorizationToken : string;
  methodArn : string;
}.

(** What the handler did: it threw, or it called the callback with an error
    or with a policy. *)
Inductive Outcome :=
  | Threw (message : string)
  | CallbackError (error : string)
  | CallbackPolicy (policy : APIGatewayAuthorizerResult).

(** JavaScript truthiness of a string: the empty string is falsy. *)
Definition truthy (s : string) : bool :=
  match s with
  | EmptyString => false
  | String _ _ => true
  end.

Section Handler.

(** [process.env] and the value of [new Date().toISOString()]. *)
Variable env : gmap string string.
Variable now : string.

(** [generatePolicy]: an effect is one of two non-empty strings, so
    [!effect] is false; [inl] is the thrown error's message. *)
Definition generatePolicy (principalId : string) (effect : StatementEffect)
    (resource : string) : string + APIGatewayAuthorizerResult :=
  if negb (truthy resource) then inl "Effect and resource are required"%string
  else
    inr (mkAuthorizerResult principalId
           (mkPolicyDocument "2012-10-17"
              [mkStatement "execute-api:Invoke" effect resource])
           (Some (mkAuthContext true now))).

Definition generateAllow (principalId resource : string)
    : string + APIGatewayAuthorizerResult :=
  generatePolicy principalId Allow resource.

Definition generateDeny (principalId resource : string)
    : string + APIGatewayAuthorizerResult :=
  generatePolicy principalId Deny resource.

(** [handler]: [process.env[API_KEY]] is [undefined] when the variable is
    not set, and a string never [===] [undefined]. *)
Definition handler (event : APIGatewayTokenAuthorizerEvent) : Outcome :=
  let expectedApiKey := env !! API_KEY in
  let apiKey := authorizationToken event in
  if bool_decide (Some apiKey = expectedApiKey) then
    match generateAllow "user" (methodArn event) with
    | inr policy => CallbackPolicy policy
    | inl message => Threw message
    end
  else CallbackError "Unauthorized".

End Handler.

End Authorizer.

(** ** The code review tool ([src/handler/mcp-handler.ts]) *)

Module CodeReview.

(** A thrown value: an [Error] with its message, or something else. *)
Inductive Thrown :=
  | ThrownError (message : string)
  | ThrownOther.

(** The response of [fetch] as the tool reads it: [response.ok], the status
    as the template literal prints it, and [await response.json()]. *)
Record FetchResponse := mkFetchResponse {
  ok : bool;
  status : string;
  json : Thrown + JSON;
}.

(** The tool's result: [{ content: [{ type: "text", text }] }], with the
    [text] of each item ([None]: [undefined]). *)
Record ToolResult := mkToolResult {
  content : list (option string);
}.

Section Tool.

(** [process.env], [fetch] on the endpoint and the request body,
    [JSON.stringify({ code })], and [JSON.stringify(result.data)], which
    throws when [result] has no properties to read and is [undefined] when
    [data] is missing. *)
Variable env : gmap string string.
Variable fetch : string → string → Thrown + FetchResponse.
Variable stringifyCode : string → string.
Variable stringifyData : JSON → Thrown + option string.

(** The [try] block. *)
Definition review (code : string) : Thrown + ToolResult :=
  match env !! Authorizer.STACK_ENDPOINT with
  | Some endpoint =>
      if negb (Authorizer.truthy endpoint) then
        inl (ThrownError "STACK_ENDPOINT environment variable is not defined")
      else
        match fetch endpoint (stringifyCode code) with
        | inl thrown => inl thrown
        | inr response =>
            if negb (ok response) then
              inl (ThrownError
                     ("Code review service responded with status: " +:+ status response))
            else
              match json response with
              | inl thrown => inl thrown
              | inr result =>
                  match stringifyData result with
                  | inl thrown => inl thrown
                  | inr text => inr (mkToolResult [text])
                  end
              end
        end
  | None => inl (ThrownError "STACK_ENDPOINT environment variable is not defined")
  end.

(** The [catch] block. *)
Definition reportError (error : Thrown) : ToolResult :=
  let errorMessage :=
    match error with
    | ThrownError message => message
    | ThrownOther => "Unknown error occurred"%string
    end in
  mkToolResult [Some ("Error performing code review: " +:+ errorMessage)%string].

(** The tool registered under the name code-review. *)
Definition codeReview (code : string) : ToolResult :=
  match review code with
  | inr result => result
  | inl error => reportError error
  end.

End Tool.

End CodeReview.

(** ** Concrete messages, engines and requests *)

Module Scenario.

Definition request (method : string) (n : Z) : JSONRPCMessage :=
  mkMessage (Some method) (Some (IdNum n)) [("jsonrpc"%string, JString "2.0")].

Definition notification (method : string) : JSONRPCMessage :=
  mkMessage (Some method) None [("jsonrpc"%string, JString "2.0")].

Definition response (n : Z) (result : string) : JSONRPCMessage :=
  mkMessage None (Some (IdNum n))
    [("jsonrpc"%string, JString "2.0"); ("result"%string, JString result)].

(** An engine that records what it is given and answers nothing. *)
Definition recorder : Handler (list JSONRPCMessage) :=
  λ message log, (log ++ [message], []).

(** An engine that answers every request before its callback returns. *)
Definition eager : Handler unit :=
  λ message _,
    (tt, match msg_id message with
         | Some (IdNum n) => [response n "eager"]
         | _ => []
         end).

Definition fresh {E : Type} (h : option (Handler E)) (e : E) : World E :=
  mkWorld (mkTransport false ∅ h) [] e.

Definition batch : list JSONRPCMessage :=
  [request "tools/call" 1; notification "notifications/initialized";
   request "tools/list" 2; response 9 "stray"].

Definition headersOK : gmap string string :=
  {[ "accept"%string := "application/json, text/event-stream"%string;
     "Content-Type"%string := "application/json"%string ]}.

(** Stand-ins for the external functions. *)
Definition noText {A : Type} : A → string := λ _, ""%string.
Definition decodeNothing : string → option string := λ _, None.
Definition parseTwoNumbers : string → option JSON :=
  λ _, Some (JArray [JNumber 1; JNumber 2]).
Definition numbersAsRequests : JSON → option JSONRPCMessage :=
  λ v, match v with
       | JNumber n => Some (request "ping" n)
       | _ => None
       end.
Definition parseEmptyArray : string → option JSON :=
  λ _, Some (JArray []).

End Scenario.

(** ** Basic facts about the adapter *)

Section TransportFacts.

Context {E : Type}.
Implicit Types (w : World E) (message m : JSONRPCMessage) (h : Handler E).

Lemma resolve_length p m (heap : PromiseHeap) :
  length (resolve p m heap) = length heap.
Proof.
  unfold resolve. destruct (heap !! p) as [[?|]|]; by rewrite ?length_insert.
Qed.

Lemma resolve_lookup_ne p q m (heap : PromiseHeap) :
  p ≠ q → resolve p m heap !! q = heap !! q.
Proof.
  intros Hne. unfold resolve.
  destruct (heap !! p) as [[?|]|]; by rewrite ?list_lookup_insert_ne.
Qed.

Lemma resolve_lookup_pending p m (heap : PromiseHeap) :
  heap !! p = Some None → resolve p m heap !! p = Some (Some m).
Proof.
  intros Hp. unfold resolve. rewrite Hp.
  apply list_lookup_insert_eq. by eapply lookup_lt_Some.
Qed.

Lemma resolve_settled p m (heap : PromiseHeap) :
  heap !! p ≠ Some None → resolve p m heap = heap.
Proof. unfold resolve. by destruct (heap !! p) as [[?|]|]. Qed.

(** A message with no [id] key is dropped. *)
Lemma send_no_id m w : msg_id m = None → send m w = w.
Proof.
  intros Hid. unfold send, isResponseMessage. rewrite Hid.
  rewrite bool_decide_eq_false_2; [done | by intros [? ?]].
Qed.

(** A message whose id has no entry in the table is dropped. *)
Lemma send_unmatched m w : pending w !! msg_id m = None → send m w = w.
Proof.
  intros Hk. unfold send. rewrite Hk. by destruct (isResponseMessage m).
Qed.

(** A message with an id that has an entry resolves it and removes it. *)
Lemma send_matched m w p :
  is_Some (msg_id m) → pending w !! msg_id m = Some p →
  send m w = set_pending (delete (msg_id m) (pending w))
               (set_promises (resolve p m (promises w)) w).
Proof.
  intros Hid Hk. unfold send, isResponseMessage.
  by rewrite bool_decide_eq_true_2, Hk.
Qed.

Lemma send_frame m w :
  _started (transport (send m w)) = _started (transport w)
  ∧ onmessage (transport (send m w)) = onmessage (transport w)
  ∧ engine (send m w) = engine w
  ∧ length (promises (send m w)) = length (promises w).
Proof.
  unfold send. destruct (isResponseMessage m); [|done].
  destruct (pending w !! msg_id m); [|done].
  cbn. by rewrite resolve_length.
Qed.

Lemma sends_frame (ms : list JSONRPCMessage) w :
  let w' := foldl (λ w' out, send out w') w ms in
  _started (transport w') = _started (transport w)
  ∧ onmessage (transport w') = onmessage (transport w)
  ∧ engine w' = engine w
  ∧ length (promises w') = length (promises w).
Proof.
  revert w. induction ms as [|m ms IH]; intros w; cbn; [done|].
  destruct (IH (send m w)) as (-> & -> & -> & ->). apply send_frame.
Qed.

(** With an empty table every [send] is dropped. *)
Lemma sends_empty (ms : list JSONRPCMessage) w :
  pending w = ∅ → foldl (λ w' out, send out w') w ms = w.
Proof.
  intros Hw. induction ms as [|m ms IH]; cbn; [done|].
  rewrite send_unmatched; [done|]. by rewrite Hw, lookup_empty.
Qed.

Lemma deliver_empty m w :
  pending w = ∅ →
  deliver m w =
    match onmessage (transport w) with
    | Some h => set_engine (h m (engine w)).1 w
    | None => w
    end.
Proof.
  intros Hw. unfold deliver. destruct (onmessage (transport w)) as [h|]; [|done].
  destruct (h m (engine w)) as [e' outgoing]. by apply sends_empty.
Qed.

(** Dispatching on an empty table changes nothing but the engine. *)
Lemma dispatch_empty (ms : list JSONRPCMessage) w :
  pending w = ∅ →
  dispatch ms w =
    match onmessage (transport w) with
    | Some h => set_engine (foldl (λ e m, (h m e).1) (engine w) ms) w
    | None => w
    end.
Proof.
  unfold dispatch. revert w. induction ms as [|m ms IH]; intros w Hw; cbn.
  - destruct w as [[? ? [h|]] ? ?]; reflexivity.
  - rewrite deliver_empty by done.
    destruct (onmessage (transport w)) as [h|] eqn:Hh.
    + rewrite IH by done. cbn. by rewrite Hh.
    + rewrite IH by done. by rewrite Hh.
Qed.

Lemma deliver_frame m w :
  _started (transport (deliver m w)) = _started (transport w)
  ∧ onmessage (transport (deliver m w)) = onmessage (transport w)
  ∧ length (promises (deliver m w)) = length (promises w).
Proof.
  unfold deliver. destruct (onmessage (transport w)) as [h|] eqn:Hh; [|done].
  destruct (h m (engine w)) as [e' outgoing].
  destruct (sends_frame outgoing (set_engine e' w)) as (H1 & H2 & _ & H3).
  cbn in H1, H2, H3. by rewrite H1, H2, H3.
Qed.

Lemma dispatch_frame (ms : list JSONRPCMessage) w :
  _started (transport (dispatch ms w)) = _started (transport w)
  ∧ onmessage (transport (dispatch ms w)) = onmessage (transport w)
  ∧ length (promises (dispatch ms w)) = length (promises w).
Proof.
  unfold dispatch. revert w. induction ms as [|m ms IH]; intros w; cbn; [done|].
  destruct (IH (deliver m w)) as (-> & -> & ->). apply deliver_frame.
Qed.

Lemma awaitResponses_frame (reqs : list JSONRPCMessage) w :
  let w' := (awaitResponses reqs w).1 in
  _started (transport w') = _started (transport w)
  ∧ onmessage (transport w') = onmessage (transport w)
  ∧ engine w' = engine w.
Proof.
  revert w. induction reqs as [|r reqs IH]; intros w; cbn; [done|].
  specialize (IH (newPendingPromise r w).1). cbn in IH.
  destruct (awaitResponses reqs _) as [w2 ps]. cbn in *. done.
Qed.

Lemma handle_frame (ms : list JSONRPCMessage) w :
  let w' := (handleJSONRPCMessages ms w).1 in
  _started (transport w') = _started (transport w)
  ∧ onmessage (transport w') = onmessage (transport w).
Proof.
  unfold handleJSONRPCMessages.
  destruct (dispatch_frame ms (_startFreshSession w)) as (Hs & Ho & _).
  cbn in Hs, Ho.
  destruct (length _ =? 0)%nat; cbn; [done|].
  pose proof (awaitResponses_frame
    (filter (λ m, isRequestMessage m = true) ms)
    (dispatch ms (_startFreshSession w))) as (Hs' & Ho' & _).
  destruct (awaitResponses _ _) as [w3 ps]. cbn in *. by rewrite Hs', Ho'.
Qed.

End TransportFacts.

(** ** The state [handleJSONRPCMessages] leaves when it suspends *)

Section Registration.

Context {E : Type}.
Implicit Types (w : World E) (m : JSONRPCMessage) (reqs ms : list JSONRPCMessage).

Lemma awaitResponses_promises reqs w :
  (awaitResponses reqs w).2 = seq (length (promises w)) (length reqs)
  ∧ promises (awaitResponses reqs w).1 = promises w ++ replicate (length reqs) None.
Proof.
  revert w. induction reqs as [|r reqs IH]; intros w; cbn.
  - by rewrite app_nil_r.
  - destruct (IH (newPendingPromise r w).1) as [IH1 IH2].
    destruct (awaitResponses reqs _) as [w2 ps]. cbn in *.
    rewrite IH1, IH2, length_app, <- app_assoc. cbn.
    by rewrite Nat.add_1_r.
Qed.

(** Ids of no request of the batch keep the entry they had. *)
Lemma awaitResponses_pending_other reqs w k :
  k ∉ msg_id <$> reqs →
  pending (awaitResponses reqs w).1 !! k = pending w !! k.
Proof.
  revert w. induction reqs as [|r reqs IH]; intros w Hk; cbn; [done|].
  rewrite fmap_cons, not_elem_of_cons in Hk. destruct Hk as [Hne Hk].
  specialize (IH (newPendingPromise r w).1 Hk).
  destruct (awaitResponses reqs _) as [w2 ps]. cbn in *.
  rewrite IH. by apply lookup_insert_ne.
Qed.

(** The entry of an id belongs to the last request that carries it. *)
Lemma awaitResponses_pending_last reqs w i k :
  (msg_id <$> reqs) !! i = Some k →
  (∀ j, (i < j)%nat → (msg_id <$> reqs) !! j ≠ Some k) →
  pending (awaitResponses reqs w).1 !! k = Some (length (promises w) + i)%nat.
Proof.
  revert w i. induction reqs as [|r reqs IH]; intros w i Hi Hlast; [done|].
  destruct i as [|i]; cbn in Hi.
  - injection Hi as <-.
    pose proof (awaitResponses_pending_other reqs (newPendingPromise r w).1 (msg_id r)) as Ho.
    cbn. destruct (awaitResponses reqs _) as [w2 ps]. cbn in *.
    rewrite Ho.
    + by rewrite lookup_insert_eq, Nat.add_0_r.
    + intros (j & Hj)%list_elem_of_lookup. by apply (Hlast (S j)); [lia|].
  - specialize (IH (newPendingPromise r w).1 i Hi).
    cbn. destruct (awaitResponses reqs _) as [w2 ps]. cbn in *.
    rewrite IH, length_app; cbn; [f_equal; lia|].
    intros j Hj. apply (Hlast (S j)). lia.
Qed.

Lemma handle_dispatched ms w :
  pending (dispatch ms (_startFreshSession w)) = ∅
  ∧ promises (dispatch ms (_startFreshSession w)) = promises w.
Proof.
  rewrite dispatch_empty by done.
  by destruct (onmessage (transport (_startFreshSession w))).
Qed.

Lemma handle_no_requests ms w :
  requestsOf ms = [] →
  handleJSONRPCMessages ms w = (dispatch ms (_startFreshSession w), None).
Proof.
  intros Hr. unfold handleJSONRPCMessages. fold (requestsOf ms). by rewrite Hr.
Qed.

Lemma handle_requests ms w :
  requestsOf ms ≠ [] →
  handleJSONRPCMessages ms w =
    ((awaitResponses (requestsOf ms) (dispatch ms (_startFreshSession w))).1,
     Some (seq (length (promises w)) (length (requestsOf ms)))).
Proof.
  intros Hr. unfold handleJSONRPCMessages. fold (requestsOf ms).
  destruct (requestsOf ms) as [|r reqs] eqn:Hreqs; [done|].
  change (length (r :: reqs) =? 0)%nat with false. cbv iota.
  pose proof (awaitResponses_promises (r :: reqs) (dispatch ms (_startFreshSession w))) as [Hps _].
  destruct (awaitResponses (r :: reqs) _) as [w3 ps]. cbn [fst snd] in *.
  rewrite Hps. by destruct (handle_dispatched ms w) as [_ ->].
Qed.

(** The table after the synchronous part holds ids of this batch only. *)
Lemma handle_pending_other ms w k :
  k ∉ msg_id <$> requestsOf ms →
  pending (handleJSONRPCMessages ms w).1 !! k = None.
Proof.
  intros Hk. destruct (handle_dispatched ms w) as [Hd _].
  destruct (decide (requestsOf ms = [])) as [Hr|Hr].
  - rewrite handle_no_requests by done. cbn. by rewrite Hd.
  - rewrite handle_requests by done. cbn.
    rewrite awaitResponses_pending_other by done. by rewrite Hd.
Qed.

End Registration.

(** ** Correlation: which message settles which promise *)

Lemma answerTo_snoc k sent m :
  answerTo k (sent ++ [m]) =
    match answerTo k sent with
    | Some r => Some r
    | None => if decide (msg_id m = k) then Some m else None
    end.
Proof.
  unfold answerTo. rewrite filter_app.
  destruct (filter _ sent) as [|r l]; [|done].
  rewrite app_nil_l, filter_cons, filter_nil.
  by destruct (decide (msg_id m = k)).
Qed.

Lemma answerTo_Some k sent r :
  answerTo k sent = Some r → r ∈ sent ∧ msg_id r = k.
Proof.
  unfold answerTo. intros Hh.
  assert (r ∈ filter (λ r, msg_id r = k) sent) as Hr.
  { destruct (filter _ sent); [done|]. injection Hh as ->. apply list_elem_of_here. }
  apply list_elem_of_filter in Hr. tauto.
Qed.

Lemma answerTo_is_Some k sent r :
  r ∈ sent → msg_id r = k → is_Some (answerTo k sent).
Proof.
  intros Hr Hk. unfold answerTo.
  assert (r ∈ filter (λ r, msg_id r = k) sent) as Hf by by apply list_elem_of_filter.
  destruct (filter _ sent); [by apply not_elem_of_nil in Hf | by eexists].
Qed.

Section Correlation.

Context {E : Type}.
Implicit Types (w : World E) (m : JSONRPCMessage) (sent : list JSONRPCMessage).

Lemma correlated_send ids base sent w m :
  NoDup ids → Forall is_Some ids →
  correlated ids base sent w →
  correlated ids base (sent ++ [m]) (send m w).
Proof.
  intros Hnd Hsome [Hprom Hpend].
  assert (∀ i k, ids !! i = Some k → is_Some k) as Hk.
  { intros i k Hi. by apply (Forall_lookup_1 _ _ _ _ Hsome Hi). }
  destruct (msg_id m) as [km|] eqn:Hm.
  2:{ (* no id: dropped *)
    rewrite send_no_id by done. split.
    - intros i k Hi. rewrite answerTo_snoc, Hm, (Hprom _ _ Hi).
      destruct (Hk _ _ Hi) as [k' ->].
      rewrite decide_False by done. by destruct (answerTo _ sent).
    - intros k p. rewrite Hpend, answerTo_snoc, Hm. split.
      + intros [Ha (i & Hi & ->)]. split; [|by eauto].
        destruct (Hk _ _ Hi) as [k' ->]. rewrite Ha. by rewrite decide_False.
      + intros [Ha ?]. split; [|done]. by destruct (answerTo k sent). }
  destruct (pending w !! Some km) as [p|] eqn:Hp.
  - (* the id is pending: its promise is resolved, its entry removed *)
    apply Hpend in Hp as Hp'. destruct Hp' as [Hnone (i0 & Hi0 & ->)].
    rewrite (send_matched m w (base + i0)) by (rewrite Hm; eauto).
    rewrite Hm. split.
    + intros i k Hi. cbn. rewrite answerTo_snoc, Hm.
      destruct (decide (Some km = k)) as [<-|Hne].
      * assert (i = i0) as -> by (eapply NoDup_lookup; eauto).
        rewrite Hnone. apply resolve_lookup_pending.
        rewrite (Hprom _ _ Hi0). by rewrite Hnone.
      * rewrite resolve_lookup_ne.
        -- rewrite (Hprom _ _ Hi). by destruct (answerTo k sent).
        -- intros Heq. assert (i0 = i) as -> by lia. congruence.
    + intros k p. cbn. rewrite answerTo_snoc, Hm.
      destruct (decide (Some km = k)) as [<-|Hne].
      * rewrite lookup_delete_eq, Hnone. split; [done | by intros [? _]].
      * rewrite lookup_delete_ne, Hpend by done. split.
        -- intros [-> ?]. done.
        -- intros [Ha ?]. split; [|done]. by destruct (answerTo k sent).
  - (* no entry: dropped *)
    rewrite send_unmatched by (by rewrite Hm). split.
    + intros i k Hi. rewrite answerTo_snoc, Hm, (Hprom _ _ Hi).
      destruct (answerTo k sent) eqn:Ha; [done|].
      destruct (decide (Some km = k)) as [<-|]; [|done].
      assert (pending w !! Some km = Some (base + i)%nat) as Hc by (apply Hpend; eauto).
      congruence.
    + intros k p. rewrite Hpend, answerTo_snoc, Hm. split.
      * intros [Ha (i & Hi & ->)]. split; [|by eauto].
        rewrite Ha. destruct (decide (Some km = k)) as [<-|]; [|done].
        assert (pending w !! Some km = Some (base + i)%nat) as Hc by (apply Hpend; eauto).
        congruence.
      * intros [Ha ?]. split; [|done]. by destruct (answerTo k sent).
Qed.

Lemma correlated_sends ids base sent w more :
  NoDup ids → Forall is_Some ids →
  correlated ids base sent w →
  correlated ids base (sent ++ more) (foldl (λ w' out, send out w') w more).
Proof.
  intros Hnd Hsome. revert sent w.
  induction more as [|m more IH]; intros sent w Hc; cbn.
  - by rewrite app_nil_r.
  - rewrite (assoc_L app sent [m] more : sent ++ m :: more = (sent ++ [m]) ++ more).
    apply IH. by apply correlated_send.
Qed.

(** [Promise.all] over the invocation's promises reads the answers off in
    request order. *)
Lemma Promise_all_correlated ids base sent (heap : PromiseHeap) :
  (∀ i k, ids !! i = Some k → heap !! (base + i)%nat = Some (answerTo k sent)) →
  Promise_all (seq base (length ids)) heap = mapM (λ k, answerTo k sent) ids.
Proof.
  unfold Promise_all. revert base.
  induction ids as [|k ids IH]; intros base Hh; [done|].
  cbn. rewrite <- (IH (S base)).
  - specialize (Hh 0%nat k eq_refl). rewrite Nat.add_0_r in Hh. by rewrite Hh.
  - intros i k' Hi. specialize (Hh (S i) k' Hi).
    by replace (S base + i)%nat with (base + S i)%nat by lia.
Qed.

End Correlation.

Section Replies.

Context {E : Type}.
Implicit Types (w : World E) (m : JSONRPCMessage) (ms sent : list JSONRPCMessage).

Lemma requestsOf_ids_Some ms : Forall is_Some (msg_id <$> requestsOf ms).
Proof.
  apply Forall_fmap, Forall_forall. intros m [Hm _]%list_elem_of_filter.
  unfold isRequestMessage in Hm. apply andb_true_iff in Hm as [_ Hm].
  by apply bool_decide_eq_true in Hm.
Qed.

(** When [handleJSONRPCMessages] suspends, every request with a distinct id
    has a pending promise, in request order, and its entry in the table. *)
Lemma handle_correlated ms w :
  requestsOf ms ≠ [] → NoDup (msg_id <$> requestsOf ms) →
  correlated (msg_id <$> requestsOf ms) (length (promises w)) []
    (handleJSONRPCMessages ms w).1.
Proof.
  intros Hne Hnd. rewrite handle_requests by done. cbn [fst].
  destruct (handle_dispatched ms w) as [Hpd Hpr].
  pose proof (awaitResponses_promises (requestsOf ms)
    (dispatch ms (_startFreshSession w))) as [_ Hheap].
  rewrite Hpr in Hheap. split.
  - intros i k Hi. rewrite Hheap. cbn.
    apply lookup_lt_Some in Hi as Hlt. rewrite length_fmap in Hlt.
    rewrite lookup_app_r by lia.
    replace (length (promises w) + i - length (promises w))%nat with i by lia.
    by rewrite lookup_replicate_2.
  - intros k p. cbn. split.
    + intros Hp. split; [done|].
      destruct (decide (k ∈ msg_id <$> requestsOf ms)) as [Hin|Hout].
      * apply list_elem_of_lookup in Hin as [i Hi]. exists i. split; [done|].
        rewrite (awaitResponses_pending_last _ _ i k) in Hp.
        -- rewrite Hpr in Hp. congruence.
        -- done.
        -- intros j Hj Hk. assert (i = j) by (eapply NoDup_lookup; eauto). lia.
      * rewrite awaitResponses_pending_other, Hpd, lookup_empty in Hp by done. done.
    + intros [_ (i & Hi & ->)].
      rewrite (awaitResponses_pending_last _ _ i k).
      * by rewrite Hpr.
      * done.
      * intros j Hj Hk. assert (i = j) by (eapply NoDup_lookup; eauto). lia.
Qed.

(** The reply of an invocation once the engine has passed [sent] to [send]:
    the answers to the requests' ids, in request order. *)
Lemma handle_then_sends ms sent w :
  requestsOf ms ≠ [] → NoDup (msg_id <$> requestsOf ms) →
  returned (handleJSONRPCMessages ms w).2
    (foldl (λ w' out, send out w') (handleJSONRPCMessages ms w).1 sent)
  = pickReply <$> mapM (λ q, answerTo (msg_id q) sent) (requestsOf ms).
Proof.
  intros Hne Hnd.
  pose proof (handle_correlated ms w Hne Hnd) as Hc.
  apply (correlated_sends _ _ [] _ sent Hnd (requestsOf_ids_Some ms)) in Hc.
  rewrite app_nil_l in Hc. destruct Hc as [Hprom _].
  rewrite handle_requests in * by done. cbn [fst snd] in *.
  unfold returned. f_equal.
  rewrite <- (length_fmap msg_id (requestsOf ms)).
  rewrite (Promise_all_correlated _ _ sent) by done.
  generalize (requestsOf ms). intros l. induction l as [|q l IH]; [done|].
  cbn. by rewrite IH.
Qed.

End Replies.

(** ** Facts about the bridge's helpers *)

Lemma prefix_app (p s : string) :
  String.prefix p s = true ↔ ∃ post, s = (p +:+ post)%string.
Proof.
  revert s. induction p as [|a p IH]; intros s.
  - split; [by exists s | by destruct s].
  - destruct s as [|b s]; cbn.
    + split; [done | by intros [? ?]].
    + destruct (Ascii.ascii_dec a b) as [->|Hne].
      * rewrite IH. split; intros [post Hs]; exists post.
        -- by rewrite Hs.
        -- by injection Hs.
      * split; [done | intros [post Hs]; injection Hs; congruence].
Qed.

(** [includes] decides the substring relation. *)
Lemma includes_spec (s search : string) :
  includes s search = true ↔ ∃ pre post, s = (pre +:+ search +:+ post)%string.
Proof.
  induction s as [|a s IH]; cbn [includes].
  - destruct (String.prefix search "") eqn:Hp.
    + apply prefix_app in Hp as [post Hs]. split; [|done].
      intros _. by exists ""%string, post.
    + split; [done|]. intros (pre & post & Hs).
      destruct pre; [|discriminate Hs].
      assert (String.prefix search "" = true) by (apply prefix_app; eauto).
      congruence.
  - destruct (String.prefix search (String a s)) eqn:Hp.
    + apply prefix_app in Hp as [post Hs]. split; [|done].
      intros _. by exists ""%string, post.
    + rewrite IH. split.
      * intros (pre & post & ->). by exists (String a pre), post.
      * intros (pre & post & Hs). destruct pre as [|b pre].
        -- assert (String.prefix search (String a s) = true)
             by (apply prefix_app; eauto).
           congruence.
        -- injection Hs as -> ->. by exists pre, post.
Qed.

Lemma nullish_None {A : Type} (a b : option A) :
  nullish a b = None ↔ a = None ∧ b = None.
Proof.
  destruct a; cbn; split; try done.
  - by intros [? _].
  - by intros [_ ?].
Qed.

(** ** Properties of the transport adapter *)

Section TransportProperties.

Context {E : Type}.
Implicit Types (w : World E) (m : JSONRPCMessage) (ms sent : list JSONRPCMessage).
Implicit Types (h : Handler E) (c : Call E).

Lemma run_started w c :
  _started (transport (run w c)) =
    match c with
    | CallStart => true
    | _ => _started (transport w)
    end.
Proof.
  destruct c as [|m| |h|ms]; cbn; try done.
  - unfold start. by destruct (_started (transport w)) eqn:Hs.
  - by destruct (send_frame m w) as (-> & _).
  - by destruct (handle_frame ms w) as (-> & _).
Qed.

Lemma runs_not_started (cs : list (Call E)) w :
  Forall (λ c, c ≠ CallStart) cs →
  _started (transport (foldl run w cs)) = _started (transport w).
Proof.
  revert w. induction cs as [|c cs IH]; intros w Hcs; cbn; [done|].
  apply Forall_cons in Hcs as [Hc Hcs]. rewrite IH, run_started by done.
  by destruct c.
Qed.

Lemma runs_started (cs : list (Call E)) w :
  _started (transport w) = true →
  _started (transport (foldl run w cs)) = true.
Proof.
  revert w. induction cs as [|c cs IH]; intros w Hw; cbn; [done|].
  apply IH. rewrite run_started. by destruct c.
Qed.

(** C8. On an instance made by the constructor, whatever else was called on
    it before, the first call of [start] succeeds and sets the started
    flag; after that, whatever is called in between, every further call of
    [start] throws and leaves the adapter, its promises and the engine as
    they were. *)
Theorem start_once (e : E) (earlier later : list (Call E)) :
  Forall (λ c, c ≠ CallStart) earlier →
  let w0 := foldl run (mkWorld new_HttpServerTransport [] e) earlier in
  let w1 := (start w0).1 in
  let w2 := foldl run w1 later in
  start w0 = (set_started true w0, inr tt)
  ∧ _started (transport w1) = true
  ∧ start w2 = (w2, inl "HttpServerTransport already started"%string).
Proof.
  intros Hearlier w0 w1 w2.
  assert (_started (transport w0) = false) as H0
    by (unfold w0; by rewrite runs_not_started).
  assert (start w0 = (set_started true w0, inr tt)) as Hs
    by (unfold start; by rewrite H0).
  assert (_started (transport w1) = true) as H1 by (unfold w1; by rewrite Hs).
  split_and!; [done | done |].
  unfold start. by rewrite (runs_started later w1 H1 : _started (transport w2) = true).
Qed.

(** C7. With the engine's callback installed, [handleJSONRPCMessages] has
    called it once per message of the batch, in batch order, when the
    dispatch is over; no promise has been created or resolved by then, the
    table is empty, and what follows leaves the engine as the dispatch left
    it.  The batch is arbitrary: notifications alone are dispatched too. *)
Theorem dispatch_once_in_order w h ms :
  onmessage (transport w) = Some h →
  let dispatched := dispatch ms (_startFreshSession w) in
  engine dispatched = foldl (λ e m, (h m e).1) (engine w) ms
  ∧ promises dispatched = promises w
  ∧ pending dispatched = ∅
  ∧ engine (handleJSONRPCMessages ms w).1 = engine dispatched.
Proof.
  intros Hh. cbv zeta.
  destruct (handle_dispatched ms w) as [Hp Hheap].
  split_and!; [|done|done|].
  - rewrite dispatch_empty by done. cbn. by rewrite Hh.
  - destruct (decide (requestsOf ms = [])) as [Hr|Hr].
    + by rewrite handle_no_requests.
    + rewrite handle_requests by done. cbn [fst].
      by destruct (awaitResponses_frame (requestsOf ms)
           (dispatch ms (_startFreshSession w))) as (_ & _ & ->).
Qed.

Lemma send_pending_None m w k :
  pending w !! k = None → pending (send m w) !! k = None.
Proof.
  intros Hk. unfold send. destruct (isResponseMessage m); [|done].
  destruct (pending w !! msg_id m); [|done].
  cbn. by apply lookup_delete_None; right.
Qed.

Lemma sends_pending_None sent w k :
  pending w !! k = None →
  pending (foldl (λ w' out, send out w') w sent) !! k = None.
Proof.
  revert w. induction sent as [|m sent IH]; intros w Hk; cbn; [done|].
  by apply IH, send_pending_None.
Qed.

(** C3. Whatever the table held, [handleJSONRPCMessages] empties it first:
    the dispatch runs on the empty table, so nothing the engine sends while
    it is called settles a promise, and when the function suspends the
    table holds ids of this batch only.  From then on, whatever else has
    been sent, a message whose id is the id of no request of the batch is
    dropped: the world stays as it is. *)
Theorem stale_response_dropped w ms :
  pending (_startFreshSession w) = ∅
  ∧ pending (dispatch ms (_startFreshSession w)) = ∅
  ∧ promises (dispatch ms (_startFreshSession w)) = promises w
  ∧ ∀ sent m, msg_id m ∉ msg_id <$> requestsOf ms →
      let w' := foldl (λ w' out, send out w') (handleJSONRPCMessages ms w).1 sent in
      send m w' = w'.
Proof.
  destruct (handle_dispatched ms w) as [Hp Hheap].
  split_and!; [done | done | done |].
  intros sent m Hm. cbv zeta. apply send_unmatched.
  by apply sends_pending_None, handle_pending_other.
Qed.

End TransportProperties.

Section CorrelationProperties.

Context {E : Type}.
Implicit Types (w : World E) (m r q : JSONRPCMessage) (ms sent : list JSONRPCMessage).
Implicit Types (c : Call E).

(** C1. A batch whose requests (the messages with a method and an id) are
    N >= 1 in number and carry distinct ids: once the engine has passed to
    [send], in any order and among any other messages, a message for the id
    of every request, [handleJSONRPCMessages] returns.  It returns one
    message per request and nothing for the other messages of the batch:
    the i-th is the first message sent with the id of the i-th request; one
    request gives that message alone, several give the sequence. *)
Theorem replies_in_request_order w ms sent :
  requestsOf ms ≠ [] →
  NoDup (msg_id <$> requestsOf ms) →
  (∀ q, q ∈ requestsOf ms → ∃ r, r ∈ sent ∧ msg_id r = msg_id q) →
  ∃ rs,
    length rs = length (requestsOf ms)
    ∧ Forall2 (λ q r, msg_id r = msg_id q ∧ r ∈ sent
                      ∧ answerTo (msg_id q) sent = Some r) (requestsOf ms) rs
    ∧ returned (handleJSONRPCMessages ms w).2
        (foldl (λ w' out, send out w') (handleJSONRPCMessages ms w).1 sent)
      = Some (match rs with [r] => Single r | _ => Batch rs end).
Proof.
  intros Hne Hnd Hall.
  assert (is_Some (mapM (λ q, answerTo (msg_id q) sent) (requestsOf ms))) as [rs Hrs].
  { apply mapM_is_Some, Forall_forall. intros q Hq.
    destruct (Hall q Hq) as (r & Hr & Hid). by eapply answerTo_is_Some. }
  exists rs. rewrite handle_then_sends, Hrs by done.
  apply mapM_Some in Hrs.
  split_and!.
  - symmetry. by eapply Forall2_length.
  - eapply Forall2_impl; [exact Hrs|]. cbn. intros q r Ha.
    destruct (answerTo_Some _ _ _ Ha) as [? ?]. done.
  - cbn. f_equal. apply Forall2_length in Hrs.
    destruct rs as [|r1 [|r2 rs]]; [|done|done].
    destruct (requestsOf ms); [done | discriminate Hrs].
Qed.

Lemma last_occurrence (ids : list IdValue) k :
  k ∈ ids →
  ∃ l, ids !! l = Some k ∧ ∀ l', (l < l')%nat → ids !! l' ≠ Some k.
Proof.
  induction ids as [|a ids IH]; intros Hk; [by apply not_elem_of_nil in Hk|].
  destruct (decide (k ∈ ids)) as [Hin|Hout].
  - destruct (IH Hin) as (l & Hl & Hlast). exists (S l). split; [done|].
    intros [|l'] Hlt; [lia|]. cbn. apply Hlast. lia.
  - apply elem_of_cons in Hk as [->|]; [|done]. exists 0%nat. split; [done|].
    intros [|l'] Hlt; [lia|]. cbn. intros Hl'. apply Hout.
    by eapply list_elem_of_lookup_2.
Qed.

Lemma orphaned_send p m w : orphaned p w → orphaned p (send m w).
Proof.
  intros [Hp Hk]. unfold send. destruct (isResponseMessage m); [|done].
  destruct (pending w !! msg_id m) as [p'|] eqn:Hm; [|done].
  split; cbn.
  - rewrite resolve_lookup_ne; [done|]. intros ->. by apply (Hk (msg_id m)).
  - intros k Hk'. apply lookup_delete_Some in Hk' as [_ Hk']. by apply (Hk k).
Qed.

Lemma orphaned_sends p sent w :
  orphaned p w → orphaned p (foldl (λ w' out, send out w') w sent).
Proof.
  revert w. induction sent as [|m sent IH]; intros w Hw; cbn; [done|].
  by apply IH, orphaned_send.
Qed.

Lemma orphaned_dispatch p ms w : orphaned p w → orphaned p (dispatch ms w).
Proof.
  unfold dispatch. revert w. induction ms as [|m ms IH]; intros w Hw; cbn; [done|].
  apply IH. unfold deliver. destruct (onmessage (transport w)) as [h|]; [|done].
  destruct (h m (engine w)) as [e' outgoing]. by apply orphaned_sends.
Qed.

Lemma orphaned_awaitResponses p (reqs : list JSONRPCMessage) w :
  orphaned p w → orphaned p (awaitResponses reqs w).1.
Proof.
  revert w. induction reqs as [|r reqs IH]; intros w Hw; cbn; [done|].
  specialize (IH (newPendingPromise r w).1).
  destruct (awaitResponses reqs _) as [w2 ps]. cbn in *. apply IH.
  destruct Hw as [Hp Hk]. apply lookup_lt_Some in Hp as Hlt. split; cbn.
  - by rewrite lookup_app_l.
  - intros k Hk'. apply lookup_insert_Some in Hk' as [[_ Heq]|[_ Hk']]; [lia|].
    by apply (Hk k).
Qed.

Lemma orphaned_run p w c : orphaned p w → orphaned p (run w c).
Proof.
  intros Hw. destruct c as [|m| |h|ms]; cbn; try done.
  - unfold start. by destruct (_started (transport w)).
  - by apply orphaned_send.
  - assert (orphaned p (dispatch ms (_startFreshSession w))) as Hd.
    { apply orphaned_dispatch. destruct Hw as [Hp _]. split; [done|].
      intros k. cbn. by rewrite lookup_empty. }
    destruct (decide (requestsOf ms = [])) as [Hr|Hr].
    + by rewrite handle_no_requests.
    + rewrite handle_requests by done. by apply orphaned_awaitResponses.
Qed.

Lemma orphaned_runs p (cs : list (Call E)) w :
  orphaned p w → orphaned p (foldl run w cs).
Proof.
  revert w. induction cs as [|c cs IH]; intros w Hw; cbn; [done|].
  by apply IH, orphaned_run.
Qed.

Lemma handle_promise_pending ms w i :
  (i < length (requestsOf ms))%nat →
  promises (handleJSONRPCMessages ms w).1 !! (length (promises w) + i)%nat = Some None.
Proof.
  intros Hi. rewrite handle_requests by (intros Hr; rewrite Hr in Hi; cbn in Hi; lia).
  cbn [fst]. destruct (handle_dispatched ms w) as [_ Hpr].
  pose proof (awaitResponses_promises (requestsOf ms)
    (dispatch ms (_startFreshSession w))) as [_ ->].
  rewrite Hpr, lookup_app_r by lia.
  replace (length (promises w) + i - length (promises w))%nat with i by lia.
  by rewrite lookup_replicate_2.
Qed.

Lemma handle_pending_last ms w l k :
  (msg_id <$> requestsOf ms) !! l = Some k →
  (∀ l', (l < l')%nat → (msg_id <$> requestsOf ms) !! l' ≠ Some k) →
  pending (handleJSONRPCMessages ms w).1 !! k = Some (length (promises w) + l)%nat.
Proof.
  intros Hl Hlast.
  rewrite handle_requests by (intros Hr; by rewrite Hr in Hl).
  cbn [fst]. rewrite (awaitResponses_pending_last _ _ l k) by done.
  by destruct (handle_dispatched ms w) as [_ ->].
Qed.

(** C10. Two requests of a batch with the same id, the i-th and the j-th
    with i < j: the table has a single entry for the id, which resolves the
    promise of the last request with that id; a message sent with the id
    settles that promise and no other; the promise of the i-th request is
    pending after any later calls on the adapter, and the invocation never
    returns. *)
Theorem duplicate_id_overwrites w ms i j k :
  (msg_id <$> requestsOf ms) !! i = Some k →
  (msg_id <$> requestsOf ms) !! j = Some k →
  (i < j)%nat →
  let base := length (promises w) in
  let w1 := (handleJSONRPCMessages ms w).1 in
  ∃ l, (i < l)%nat
    ∧ (msg_id <$> requestsOf ms) !! l = Some k
    ∧ pending w1 !! k = Some (base + l)%nat
    ∧ (∀ r, msg_id r = k →
         promises (send r w1) !! (base + l)%nat = Some (Some r)
         ∧ ∀ p, p ≠ (base + l)%nat → promises (send r w1) !! p = promises w1 !! p)
    ∧ (∀ cs : list (Call E), promises (foldl run w1 cs) !! (base + i)%nat = Some None)
    ∧ (∀ cs : list (Call E),
         returned (handleJSONRPCMessages ms w).2 (foldl run w1 cs) = None).
Proof.
  intros Hi Hj Hij base w1.
  destruct (last_occurrence (msg_id <$> requestsOf ms) k) as (l & Hl & Hlast);
    [by eapply list_elem_of_lookup_2|].
  assert (j ≤ l)%nat as Hjl.
  { destruct (decide (j ≤ l)%nat); [done|]. exfalso. apply (Hlast j); [lia | done]. }
  assert (pending w1 !! k = Some (base + l)%nat) as Hpk
    by by apply handle_pending_last.
  assert (∀ n, (n < length (requestsOf ms))%nat →
            promises w1 !! (base + n)%nat = Some None) as Hpend
    by (intros n Hn; by apply handle_promise_pending).
  assert (∀ n x, (msg_id <$> requestsOf ms) !! n = Some x →
            (n < length (requestsOf ms))%nat) as Hlen.
  { intros n x Hn. apply lookup_lt_Some in Hn. by rewrite length_fmap in Hn. }
  assert (orphaned (base + i)%nat w1) as Horph.
  { split; [by eapply Hpend, Hlen|]. intros k' Hk'.
    destruct (decide (k' ∈ msg_id <$> requestsOf ms)) as [Hin|Hout].
    - destruct (last_occurrence _ k' Hin) as (l' & Hl' & Hlast').
      unfold w1 in Hk'. rewrite (handle_pending_last ms w l' k') in Hk' by done.
      assert (l' = i) as -> by (unfold base in Hk'; injection Hk'; lia).
      assert (k' = k) as -> by congruence.
      by apply (Hlast' j).
    - unfold w1 in Hk'. by rewrite handle_pending_other in Hk'. }
  exists l. split_and!; [lia | done | done | | |].
  - intros r Hr. subst k.
    rewrite (send_matched r w1 (base + l)%nat); [|
      by apply (Forall_lookup_1 _ _ _ _ (requestsOf_ids_Some ms) Hl) | done].
    cbn. split.
    + apply resolve_lookup_pending. by eapply Hpend, Hlen.
    + intros p Hp. by apply resolve_lookup_ne.
  - intros cs. by destruct (orphaned_runs _ cs _ Horph) as [? _].
  - intros cs. destruct (orphaned_runs _ cs _ Horph) as [Hcell _].
    rewrite handle_requests by (intros Hr; by rewrite Hr in Hi). cbn [snd].
    unfold returned. fold w1 base.
    destruct (Promise_all _ _) as [rs|] eqn:Hall; [exfalso|done].
    assert (is_Some (Promise_all (seq base (length (requestsOf ms)))
                       (promises (foldl run w1 cs)))) as Hsome by by eexists.
    apply mapM_is_Some in Hsome.
    assert ((base + i)%nat ∈ seq base (length (requestsOf ms))) as Hin.
    { apply elem_of_seq. split; [lia|]. pose proof (Hlen _ _ Hi). lia. }
    eapply Forall_forall in Hsome; [|exact Hin]. cbn in Hsome.
    rewrite Hcell in Hsome. by destruct Hsome.
Qed.

End CorrelationProperties.

(** [send] settles the pending promise of an id with any message that has
    the id, a request included. *)
Lemma send_resolves_by_id_alone {E : Type} (w : World E) (m : JSONRPCMessage) p :
  is_Some (msg_id m) → pending w !! msg_id m = Some p → promises w !! p = Some None →
  promises (send m w) !! p = Some (Some m)
  ∧ pending (send m w) !! msg_id m = None.
Proof.
  intros Hid Hp Hcell. rewrite (send_matched m w p) by done. cbn.
  split; [by apply resolve_lookup_pending | by apply lookup_delete_eq].
Qed.

(** C2. What [send] does with a request of the engine: [isResponseMessage]
    only asks for an [id] key, which a request has too.  A client request
    with id 0 is pending; the engine sends a request of its own that also
    has id 0; the pending promise is resolved with the engine's request and
    [handleJSONRPCMessages] returns it as the reply. *)
Theorem send_takes_request_for_response :
  let clientRequest := mkMessage (Some "tools/call"%string) (Some (IdNum 0)) [] in
  let engineRequest := mkMessage (Some "roots/list"%string) (Some (IdNum 0)) [] in
  let w0 : World unit := mkWorld new_HttpServerTransport [] tt in
  let w1 := (handleJSONRPCMessages [clientRequest] w0).1 in
  let awaited := (handleJSONRPCMessages [clientRequest] w0).2 in
  isRequestMessage engineRequest = true
  ∧ isResponseMessage engineRequest = true
  ∧ returned awaited w1 = None
  ∧ promises (send engineRequest w1) = [Some engineRequest]
  ∧ pending (send engineRequest w1) = ∅
  ∧ returned awaited (send engineRequest w1) = Some (Single engineRequest).
Proof. by vm_compute. Qed.

(** ** Properties of the bridge *)

Section BridgeProperties.

Variable stringifyError : JSONRPCError → string.
Variable stringifyMessage : JSONRPCMessage → string.
Variable stringifyMessages : list JSONRPCMessage → string.
Variable Buffer_from_base64 : string → option string.
Variable JSON_parse : string → option JSON.
Variable JSONRPCMessageSchema : JSON → option JSONRPCMessage.

Local Abbreviation before' :=
  (before stringifyError Buffer_from_base64 JSON_parse JSONRPCMessageSchema).
Local Abbreviation envelope text :=
  (stringifyError (mkJSONRPCError "2.0" (mkMcpError (-32000) text) 123)).

Lemma lacksJSON_true (value : option string) :
  lacksJSON value = true ↔
    value = None ∨ ∃ v, value = Some v ∧ includes v "application/json" = false.
Proof.
  destruct value as [v|]; cbn.
  - rewrite negb_true_iff. split; [by eauto | by intros [?|(? & [= <-] & ?)]].
  - split; [by left | done].
Qed.

Lemma lacksJSON_false (value : option string) :
  lacksJSON value = false ↔
    ∃ v, value = Some v ∧ includes v "application/json" = true.
Proof.
  destruct value as [v|]; cbn.
  - rewrite negb_false_iff. split; [by eauto | by intros (? & [= <-] & ?)].
  - split; [done | by intros (? & ? & _)].
Qed.

(** C4. A batch with no request: [handleJSONRPCMessages] returns
    [undefined] at once, with the table empty and no promise created, and
    [after] answers 202 with an empty body.  When the adapter returns a
    message or a sequence, [after] answers 200 with its serialisation. *)
Theorem no_requests_accepted {E : Type} (w : World E) ms (response : ResponseSlot) :
  requestsOf ms = [] →
  ∃ w', after (mkContext (Some ms)) w = Some (w', None)
    ∧ pending w' = ∅
    ∧ promises w' = promises w
    ∧ returned None w' = Some Undefined
    ∧ afterResponse stringifyMessage stringifyMessages response None w'
      = Some (mkResponse 202 "" (spread (initialResponse response)))
    ∧ (∀ awaited (w'' : World E) m,
         returned awaited w'' = Some (Single m) →
         afterResponse stringifyMessage stringifyMessages response awaited w''
         = Some (mkResponse 200 (stringifyMessage m) (spread (initialResponse response))))
    ∧ (∀ awaited (w'' : World E) l,
         returned awaited w'' = Some (Batch l) →
         afterResponse stringifyMessage stringifyMessages response awaited w''
         = Some (mkResponse 200 (stringifyMessages l) (spread (initialResponse response)))).
Proof.
  intros Hr. exists (dispatch ms (_startFreshSession w)).
  destruct (handle_dispatched ms w) as [Hp Hheap].
  split_and!; try done.
  - unfold after. cbn. by rewrite handle_no_requests.
  - intros awaited w'' m Hret. unfold afterResponse. by rewrite Hret.
  - intros awaited w'' l Hret. unfold afterResponse. by rewrite Hret.
Qed.

(** C5. A request whose accept header is missing or does not include
    application/json is refused with 406; else one whose content-type is
    missing or does not include it is refused with 415; neither refusal
    depends on the body or its encoding flag, and the context is left as it
    was.  Every error of [before] has status 406, 415 or 422 and carries
    the serialised envelope with jsonrpc 2.0, error code -32000 and the
    fixed id 123. *)
Theorem negotiation_errors (event : RequestEvent) (context : RequestContext) :
  ((acceptHeaderValue event = None
    ∨ ∃ v, acceptHeaderValue event = Some v ∧ includes v "application/json" = false) →
   ∀ b f, before' (mkEvent (headers event) b f) context
          = (context, inl (mkHttpError 406
               (envelope "Not Acceptable: Client must accept application/json"))))
  ∧ ((∃ v, acceptHeaderValue event = Some v ∧ includes v "application/json" = true) →
     (contentTypeHeaderValue event = None
      ∨ ∃ v, contentTypeHeaderValue event = Some v
             ∧ includes v "application/json" = false) →
     ∀ b f, before' (mkEvent (headers event) b f) context
            = (context, inl (mkHttpError 415
                 (envelope "Unsupported Media Type: Content-Type must be application/json"))))
  ∧ (∀ err, (before' event context).2 = inl err →
       (before' event context).1 = context
       ∧ ∃ status text,
           status ∈ [406; 415; 422]
           ∧ err = mkHttpError status (envelope text)).
Proof.
  split_and!.
  - intros Ha%lacksJSON_true b f. unfold before.
    change (acceptHeaderValue (mkEvent (headers event) b f))
      with (acceptHeaderValue event).
    by rewrite Ha.
  - intros Ha%lacksJSON_false Hc%lacksJSON_true b f. unfold before.
    change (acceptHeaderValue (mkEvent (headers event) b f))
      with (acceptHeaderValue event).
    change (contentTypeHeaderValue (mkEvent (headers event) b f))
      with (contentTypeHeaderValue event).
    by rewrite Ha, Hc.
  - intros err. unfold before.
    destruct (lacksJSON (acceptHeaderValue event)).
    { intros [= <-]. split; [done|]. eexists 406, _. split; [set_solver | done]. }
    destruct (lacksJSON (contentTypeHeaderValue event)).
    { intros [= <-]. split; [done|]. eexists 415, _. split; [set_solver | done]. }
    destruct (parseBody _ _ _ _); [done|].
    intros [= <-]. split; [done|]. eexists 422, _. split; [set_solver | done].
Qed.

(** C6. A request that passes the header checks.  Its body is base64
    decoded when the flag is set and taken as it is otherwise; a parsed
    value that is no array stands for the one-element sequence.  A missing
    body, a failed decoding, a failed parse or one element the schema
    refuses gives the 422 error and leaves the context as it was; when
    every element passes, the context holds the whole sequence. *)
Theorem body_all_or_nothing (event : RequestEvent) (context : RequestContext) :
  lacksJSON (acceptHeaderValue event) = false →
  lacksJSON (contentTypeHeaderValue event) = false →
  let rejected : RequestContext * (HttpError + unit) :=
    (context, inl (mkHttpError 422
       (envelope "Unprocessable Entity: Invalid or malformed JSON was provided"))) in
  (body event = None → before' event context = rejected)
  ∧ ∀ b, body event = Some b →
      (isBase64Encoded event = true → Buffer_from_base64 b = None →
       before' event context = rejected)
      ∧ ∀ d, (isBase64Encoded event = true ∧ Buffer_from_base64 b = Some d
              ∨ isBase64Encoded event = false ∧ d = b) →
          (JSON_parse d = None → before' event context = rejected)
          ∧ ∀ v, JSON_parse d = Some v →
              let items := match v with JArray l => l | _ => [v] end in
              (∀ x, x ∈ items → JSONRPCMessageSchema x = None →
                 before' event context = rejected)
              ∧ (∀ messages,
                   Forall2 (λ x m, JSONRPCMessageSchema x = Some m) items messages →
                   before' event context = (mkContext (Some messages), inr tt)).
Proof.
  intros Ha Hc rejected. unfold before. rewrite Ha, Hc. unfold parseBody.
  split; [by intros ->|].
  intros b ->. cbn. unfold transformBody. split.
  { intros -> ->. done. }
  intros d Hd.
  assert ((if isBase64Encoded event then Buffer_from_base64 b else Some b) = Some d)
    as -> by (by destruct Hd as [[-> ->]|[-> ->]]).
  cbn. split; [by intros ->|].
  intros v ->. cbn.
  change (asArray v) with (match v with JArray l => l | _ => [v] end).
  split.
  - intros x Hx Hnone.
    destruct (mapM _ _) as [messages|] eqn:Hm; [exfalso|done].
    apply mapM_Some in Hm.
    apply list_elem_of_lookup in Hx as [i Hi].
    destruct (Forall2_lookup_l _ _ _ i x Hm Hi) as (m & _ & Hsome).
    congruence.
  - intros messages Hm%mapM_Some. by rewrite Hm.
Qed.

(** C9. [before] reads the headers under the keys accept, Accept,
    content-type and Content-Type and no other: two header objects that
    agree on the four give the same result.  Without the keys accept and
    Accept the request is refused with 406 whatever the other keys hold,
    and with an acceptable accept header but without the keys content-type
    and Content-Type it is refused with 415. *)
Theorem header_lookup_two_spellings (b : option string) (f : bool)
    (context : RequestContext) :
  (∀ hs hs' : gmap string string,
     (∀ name, name ∈ ["accept"; "Accept"; "content-type"; "Content-Type"]%string →
              hs !! name = hs' !! name) →
     before' (mkEvent (Some hs) b f) context = before' (mkEvent (Some hs') b f) context)
  ∧ (∀ hs : gmap string string,
       hs !! "accept"%string = None → hs !! "Accept"%string = None →
       before' (mkEvent (Some hs) b f) context
       = (context, inl (mkHttpError 406
            (envelope "Not Acceptable: Client must accept application/json"))))
  ∧ (∀ hs : gmap string string,
       lacksJSON (acceptHeaderValue (mkEvent (Some hs) b f)) = false →
       hs !! "content-type"%string = None → hs !! "Content-Type"%string = None →
       before' (mkEvent (Some hs) b f) context
       = (context, inl (mkHttpError 415
            (envelope "Unsupported Media Type: Content-Type must be application/json")))).
Proof.
  split_and!.
  - intros hs hs' Hagree. unfold before, parseBody, acceptHeaderValue,
      contentTypeHeaderValue. cbn.
    rewrite !(Hagree "accept"%string), !(Hagree "Accept"%string),
      !(Hagree "content-type"%string), !(Hagree "Content-Type"%string)
      by set_solver.
    done.
  - intros hs H1 H2. unfold before, acceptHeaderValue. cbn. by rewrite H1, H2.
  - intros hs Ha H1 H2. unfold before. rewrite Ha.
    unfold contentTypeHeaderValue. cbn. by rewrite H1, H2.
Qed.

End BridgeProperties.

(** ** The properties on concrete invocations *)

Import Scenario.

Lemma replies_in_request_order_witness :
  let w := fresh (Some eager) tt in
  let sent := [response 2 "b"; notification "progress"; response 1 "a";
               response 2 "late"] in
  ∃ rs,
    length rs = length (requestsOf batch)
    ∧ Forall2 (λ q r, msg_id r = msg_id q ∧ r ∈ sent
                      ∧ answerTo (msg_id q) sent = Some r) (requestsOf batch) rs
    ∧ returned (handleJSONRPCMessages batch w).2
        (foldl (λ w' out, send out w') (handleJSONRPCMessages batch w).1 sent)
      = Some (match rs with [r] => Single r | _ => Batch rs end).
Proof.
  apply (replies_in_request_order (fresh (Some eager) tt) batch).
  - intros H. vm_compute in H. discriminate H.
  - apply (bool_decide_unpack _). vm_compute. exact I.
  - intros q Hq.
    assert (q = request "tools/call" 1 ∨ q = request "tools/list" 2) as [->| ->].
    { vm_compute in Hq. apply elem_of_cons in Hq as [Hq|Hq]; [by left|].
      apply elem_of_cons in Hq as [Hq|Hq]; [by right|].
      by apply not_elem_of_nil in Hq. }
    + exists (response 1 "a"). split; [|reflexivity].
      do 2 apply list_elem_of_further. apply list_elem_of_here.
    + exists (response 2 "b"). split; [|reflexivity]. apply list_elem_of_here.
Defined.

Lemma start_once_witness :
  let w1 := (start (foldl run (fresh None tt) [CallClose; CallHandle batch])).1 in
  let w2 := foldl run w1 [CallSend (response 1 "a"); CallStart; CallHandle batch] in
  start w2 = (w2, inl "HttpServerTransport already started"%string).
Proof.
  destruct (start_once tt [CallClose; CallHandle batch]
              [CallSend (response 1 "a"); CallStart; CallHandle batch])
    as (_ & _ & H).
  - repeat (constructor; [discriminate|]). constructor.
  - exact H.
Defined.

Lemma dispatch_once_in_order_witness :
  engine (handleJSONRPCMessages batch (fresh (Some recorder) [])).1 = batch.
Proof.
  destruct (dispatch_once_in_order (fresh (Some recorder) []) recorder batch eq_refl)
    as (H1 & _ & _ & H4).
  rewrite H4, H1. reflexivity.
Defined.

Lemma no_requests_accepted_witness :
  let ms := [notification "ping"] in
  ∃ w', after (mkContext (Some ms)) (fresh (Some recorder) []) = Some (w', None)
    ∧ engine w' = ms
    ∧ afterResponse noText noText ResponseUndefined None w'
      = Some (mkResponse 202 "" []).
Proof.
  destruct (no_requests_accepted noText noText (fresh (Some recorder) [])
              [notification "ping"] ResponseUndefined eq_refl)
    as (w' & Ha & _ & _ & _ & Hr & _).
  exists w'. split; [exact Ha|]. split; [|exact Hr].
  vm_compute in Ha. injection Ha as <-. reflexivity.
Defined.

Lemma body_all_or_nothing_witness :
  before noText decodeNothing parseTwoNumbers numbersAsRequests
    (mkEvent (Some headersOK) (Some "[1,2]"%string) false) (mkContext None)
  = (mkContext (Some [request "ping" 1; request "ping" 2]), inr tt).
Proof.
  destruct (body_all_or_nothing noText decodeNothing parseTwoNumbers numbersAsRequests
              (mkEvent (Some headersOK) (Some "[1,2]"%string) false) (mkContext None))
    as [_ H]; [by vm_compute | by vm_compute |].
  destruct (H "[1,2]"%string eq_refl) as [_ Hd].
  destruct (Hd "[1,2]"%string (or_intror (conj eq_refl eq_refl))) as [_ Hv].
  destruct (Hv (JArray [JNumber 1; JNumber 2]) eq_refl) as [_ Hok].
  apply Hok. repeat constructor.
Defined.

Lemma duplicate_id_overwrites_witness :
  let ms := [request "first" 5; request "second" 5] in
  let w := fresh (Some eager) tt in
  let cs := [CallSend (response 5 "a"); CallSend (response 5 "b"); CallClose] in
  returned (handleJSONRPCMessages ms w).2
    (foldl run (handleJSONRPCMessages ms w).1 cs) = None.
Proof.
  destruct (duplicate_id_overwrites (fresh (Some eager) tt)
              [request "first" 5; request "second" 5] 0 1 (Some (IdNum 5))
              eq_refl eq_refl (Nat.lt_0_1))
    as (l & _ & _ & _ & _ & _ & H).
  exact (H [CallSend (response 5 "a"); CallSend (response 5 "b"); CallClose]).
Defined.

(** Further checks of the model on concrete inputs. *)

Example includes_media_type_with_parameters :
  includes "application/json; charset=utf-8" "application/json" = true.
Proof. reflexivity. Qed.

Example includes_is_case_sensitive :
  includes "Application/JSON" "application/json" = false.
Proof. reflexivity. Qed.

(** A header spelled ACCEPT is not read: the request is refused with 406. *)
Example uppercase_accept_not_read :
  before noText decodeNothing parseTwoNumbers numbersAsRequests
    (mkEvent (Some {[ "ACCEPT"%string := "application/json"%string;
                      "content-type"%string := "application/json"%string ]})
       (Some "[1,2]"%string) false) (mkContext None)
  = (mkContext None,
     inl (createMcpError noText 406
            (mkMcpError (-32000) "Not Acceptable: Client must accept application/json"))).
Proof. by vm_compute. Qed.

(** The accept check comes first: with both headers missing the error is 406. *)
Example no_headers_not_acceptable :
  (before noText decodeNothing parseTwoNumbers numbersAsRequests
     (mkEvent None None true) (mkContext None)).2
  = inl (mkHttpError 406 ""%string).
Proof. by vm_compute. Qed.

(** One element the schema refuses rejects the whole batch. *)
Example one_bad_element_rejects_all :
  before noText decodeNothing (λ _, Some (JArray [JNumber 1; JNull])) numbersAsRequests
    (mkEvent (Some headersOK) (Some "[1,null]"%string) false)
    (mkContext (Some [notification "kept"]))
  = (mkContext (Some [notification "kept"]), inl (mkHttpError 422 ""%string)).
Proof. by vm_compute. Qed.

(** A response the engine sends from inside its callback arrives before the
    table entry exists and is dropped: the invocation stays suspended. *)
Example eager_answer_is_dropped :
  let w := fresh (Some eager) tt in
  returned (handleJSONRPCMessages [request "tools/call" 1] w).2
    (handleJSONRPCMessages [request "tools/call" 1] w).1 = None.
Proof. by vm_compute. Qed.

(** Two requests answered in the opposite order come back in request order. *)
Example out_of_order_answers :
  let w := fresh (Some recorder) [] in
  returned (handleJSONRPCMessages batch w).2
    (foldl (λ w' out, send out w') (handleJSONRPCMessages batch w).1
       [response 2 "b"; response 1 "a"])
  = Some (Batch [response 1 "a"; response 2 "b"]).
Proof. by vm_compute. Qed.

(** A single request comes back as a single message, not as a sequence. *)
Example single_request_single_reply :
  let w := fresh (Some recorder) [] in
  let ms := [notification "progress"; request "tools/call" 7] in
  returned (handleJSONRPCMessages ms w).2
    (send (response 7 "done") (handleJSONRPCMessages ms w).1)
  = Some (Single (response 7 "done")).
Proof. by vm_compute. Qed.

(** ** Further properties of the transport adapter *)

Section TransportExtras.

Context {E : Type}.
Implicit Types (w : World E) (m r q : JSONRPCMessage) (ms sent : list JSONRPCMessage).
Implicit Types (c : Call E).

(** X1. A batch with a request never completes within the call itself:
    when [handleJSONRPCMessages] suspends, every promise it awaits is
    pending, whatever the engine passed to [send] from inside its callback. *)
Theorem suspended_after_dispatch w ms :
  requestsOf ms ≠ [] →
  (∀ i, (i < length (requestsOf ms))%nat →
        promises (handleJSONRPCMessages ms w).1 !! (length (promises w) + i)%nat
        = Some None)
  ∧ returned (handleJSONRPCMessages ms w).2 (handleJSONRPCMessages ms w).1 = None.
Proof.
  intros Hne. split; [intros i Hi; by apply handle_promise_pending|].
  assert (0 < length (requestsOf ms))%nat as Hpos
    by (destruct (requestsOf ms); [done | cbn; lia]).
  pose proof (handle_promise_pending ms w 0 Hpos) as H0.
  assert ((handleJSONRPCMessages ms w).2
          = Some (seq (length (promises w)) (length (requestsOf ms)))) as ->
    by by rewrite handle_requests.
  unfold returned.
  destruct (Promise_all _ _) as [rs|] eqn:Hall; [exfalso|done].
  assert (is_Some (Promise_all (seq (length (promises w)) (length (requestsOf ms)))
                     (promises (handleJSONRPCMessages ms w).1))) as Hsome
    by by eexists.
  apply mapM_is_Some in Hsome.
  eapply Forall_forall in Hsome; [|apply elem_of_seq; split; [reflexivity | lia]].
  cbn in Hsome. rewrite Nat.add_0_r in H0. rewrite H0 in Hsome. by destruct Hsome.
Qed.

(** X2. With distinct request ids the invocation has returned exactly when
    every request has had a message with its id passed to [send]. *)
Theorem returned_iff_all_answered w ms sent :
  requestsOf ms ≠ [] →
  NoDup (msg_id <$> requestsOf ms) →
  is_Some (returned (handleJSONRPCMessages ms w).2
             (foldl (λ w' out, send out w') (handleJSONRPCMessages ms w).1 sent))
  ↔ ∀ q, q ∈ requestsOf ms → ∃ r, r ∈ sent ∧ msg_id r = msg_id q.
Proof.
  intros Hne Hnd. rewrite handle_then_sends by done.
  rewrite fmap_is_Some, mapM_is_Some, Forall_forall. split.
  - intros Hall q Hq. destruct (Hall q Hq) as [r Hr]. cbn in Hr.
    exists r. by apply answerTo_Some.
  - intros Hall q Hq. destruct (Hall q Hq) as (r & Hr & Hid). cbn.
    by eapply answerTo_is_Some.
Qed.

(** X3. With distinct request ids the table holds, after any sends, exactly
    the ids of the requests not yet answered; once all are answered it is
    empty. *)
Theorem pending_are_unanswered w ms sent :
  requestsOf ms ≠ [] →
  NoDup (msg_id <$> requestsOf ms) →
  let w' := foldl (λ w' out, send out w') (handleJSONRPCMessages ms w).1 sent in
  (∀ k, is_Some (pending w' !! k)
        ↔ k ∈ msg_id <$> requestsOf ms ∧ ∀ r, r ∈ sent → msg_id r ≠ k)
  ∧ ((∀ q, q ∈ requestsOf ms → ∃ r, r ∈ sent ∧ msg_id r = msg_id q) →
     pending w' = ∅).
Proof.
  intros Hne Hnd w'.
  pose proof (handle_correlated ms w Hne Hnd) as Hc.
  apply (correlated_sends _ _ [] _ sent Hnd (requestsOf_ids_Some ms)) in Hc.
  rewrite app_nil_l in Hc. destruct Hc as [_ Hpend]. fold w' in Hpend.
  assert (∀ k, is_Some (pending w' !! k)
        ↔ k ∈ msg_id <$> requestsOf ms ∧ ∀ r, r ∈ sent → msg_id r ≠ k) as Hiff.
  { intros k. split.
    - intros [p Hp]. apply Hpend in Hp as [Hnone (i & Hi & _)].
      split; [by eapply list_elem_of_lookup_2|].
      intros r Hr Hid. destruct (answerTo_is_Some k sent r Hr Hid) as [? Hs].
      congruence.
    - intros [Hin Hnot]. apply list_elem_of_lookup in Hin as [i Hi].
      exists (length (promises w) + i)%nat. apply Hpend. split; [|by eauto].
      destruct (answerTo k sent) as [r|] eqn:Ha; [|done].
      apply answerTo_Some in Ha as [Hr Hid]. by destruct (Hnot r Hr). }
  split; [done|].
  intros Hall. apply map_eq. intros k. rewrite lookup_empty.
  apply eq_None_not_Some. intros [Hin Hnot]%Hiff.
  apply list_elem_of_fmap in Hin as (q & -> & Hq).
  destruct (Hall q Hq) as (r & Hr & Hid). by apply (Hnot r).
Qed.

(** X4. A second message with the id of one already passed to [send] is
    dropped: nothing is delivered twice. *)
Theorem send_again_dropped w m m' :
  msg_id m' = msg_id m → send m' (send m w) = send m w.
Proof.
  intros Hid. destruct (msg_id m) as [k|] eqn:Hk.
  - apply send_unmatched. rewrite Hid.
    destruct (pending w !! Some k) as [p|] eqn:Hp.
    + rewrite (send_matched m w p) by (rewrite Hk; eauto).
      cbn. rewrite Hk. apply lookup_delete_eq.
    + by rewrite send_unmatched by (by rewrite Hk).
  - by apply send_no_id.
Qed.

End TransportExtras.

Section TransportLifetime.

Context {E : Type}.
Implicit Types (w : World E) (m r q : JSONRPCMessage) (ms sent : list JSONRPCMessage).
Implicit Types (c : Call E).

Lemma handle_orphans p ms w :
  promises w !! p = Some None → orphaned p (handleJSONRPCMessages ms w).1.
Proof.
  intros Hp.
  assert (orphaned p (dispatch ms (_startFreshSession w))) as Hd.
  { apply orphaned_dispatch. split; [done|]. intros k. cbn. by rewrite lookup_empty. }
  destruct (decide (requestsOf ms = [])) as [Hr|Hr].
  - by rewrite handle_no_requests.
  - rewrite handle_requests by done. by apply orphaned_awaitResponses.
Qed.

(** X5. The reset at the start of an invocation abandons whatever was
    pending: a promise that is pending when [handleJSONRPCMessages] is
    called stays pending under every later call, so an earlier invocation
    that awaits it never returns. *)
Theorem reset_abandons_pending w p ms (cs : list (Call E)) :
  promises w !! p = Some None →
  let w' := foldl run (handleJSONRPCMessages ms w).1 cs in
  promises w' !! p = Some None
  ∧ ∀ ps, p ∈ ps → returned (Some ps) w' = None.
Proof.
  intros Hp w'.
  destruct (orphaned_runs p cs _ (handle_orphans p ms w Hp)) as [Hcell _].
  fold w' in Hcell. split; [done|].
  intros ps Hin. unfold returned.
  destruct (Promise_all ps (promises w')) as [rs|] eqn:Hall; [exfalso|done].
  assert (is_Some (Promise_all ps (promises w'))) as Hsome by by eexists.
  apply mapM_is_Some in Hsome.
  eapply Forall_forall in Hsome; [|exact Hin]. cbn in Hsome.
  rewrite Hcell in Hsome. by destruct Hsome.
Qed.

Lemma resolve_lookup_settled p' m (heap : PromiseHeap) p v :
  heap !! p = Some (Some v) → resolve p' m heap !! p = Some (Some v).
Proof.
  intros Hp. destruct (decide (p' = p)) as [->|Hne].
  - rewrite resolve_settled; [done | congruence].
  - by rewrite resolve_lookup_ne.
Qed.

Lemma settled_send p v m w :
  promises w !! p = Some (Some v) → promises (send m w) !! p = Some (Some v).
Proof.
  intros Hp. unfold send. destruct (isResponseMessage m); [|done].
  destruct (pending w !! msg_id m); [|done]. cbn. by apply resolve_lookup_settled.
Qed.

Lemma settled_sends p v sent w :
  promises w !! p = Some (Some v) →
  promises (foldl (λ w' out, send out w') w sent) !! p = Some (Some v).
Proof.
  revert w. induction sent as [|m sent IH]; intros w Hp; cbn; [done|].
  by apply IH, settled_send.
Qed.

Lemma settled_dispatch p v ms w :
  promises w !! p = Some (Some v) → promises (dispatch ms w) !! p = Some (Some v).
Proof.
  unfold dispatch. revert w. induction ms as [|m ms IH]; intros w Hp; cbn; [done|].
  apply IH. unfold deliver. destruct (onmessage (transport w)) as [h|]; [|done].
  destruct (h m (engine w)) as [e' outgoing]. by apply settled_sends.
Qed.

Lemma settled_awaitResponses p v (reqs : list JSONRPCMessage) w :
  promises w !! p = Some (Some v) →
  promises (awaitResponses reqs w).1 !! p = Some (Some v).
Proof.
  intros Hp. destruct (awaitResponses_promises reqs w) as [_ ->].
  by apply lookup_app_l_Some.
Qed.

Lemma settled_run p v w c :
  promises w !! p = Some (Some v) → promises (run w c) !! p = Some (Some v).
Proof.
  intros Hp. destruct c as [|m| |h|ms]; cbn; try done.
  - unfold start. by destruct (_started (transport w)).
  - by apply settled_send.
  - assert (promises (dispatch ms (_startFreshSession w)) !! p = Some (Some v)) as Hd
      by by apply settled_dispatch.
    destruct (decide (requestsOf ms = [])) as [Hr|Hr].
    + by rewrite handle_no_requests.
    + rewrite handle_requests by done. by apply settled_awaitResponses.
Qed.

Lemma settled_runs p v (cs : list (Call E)) w :
  promises w !! p = Some (Some v) → promises (foldl run w cs) !! p = Some (Some v).
Proof.
  revert w. induction cs as [|c cs IH]; intros w Hp; cbn; [done|].
  by apply IH, settled_run.
Qed.

(** X6. A reply, once there, is final: when an invocation has returned,
    no later call on the adapter changes what it returned. *)
Theorem reply_is_final w awaited reply (cs : list (Call E)) :
  returned awaited w = Some reply →
  returned awaited (foldl run w cs) = Some reply.
Proof.
  destruct awaited as [ps|]; [|done]. unfold returned.
  destruct (Promise_all ps (promises w)) as [rs|] eqn:Hall; [|done].
  intros [= <-].
  assert (Promise_all ps (promises (foldl run w cs)) = Some rs) as ->; [|done].
  apply mapM_Some. apply mapM_Some in Hall.
  eapply Forall2_impl; [exact Hall|]. cbn. intros p v Hv.
  destruct (promises w !! p) as [[v'|]|] eqn:Hp; try done.
  cbn in Hv. injection Hv as ->.
  by rewrite (settled_runs p v cs w Hp).
Qed.

End TransportLifetime.

Section TransportInputs.

Context {E E' : Type}.
Implicit Types (m : JSONRPCMessage) (ms sent reqs : list JSONRPCMessage).

Lemma awaitResponses_same_core reqs (w : World E) (w' : World E') :
  pending w = pending w' → promises w = promises w' →
  pending (awaitResponses reqs w).1 = pending (awaitResponses reqs w').1
  ∧ promises (awaitResponses reqs w).1 = promises (awaitResponses reqs w').1
  ∧ (awaitResponses reqs w).2 = (awaitResponses reqs w').2.
Proof.
  revert w w'. induction reqs as [|r reqs IH]; intros w w' Hpe Hpr; cbn; [done|].
  specialize (IH (newPendingPromise r w).1 (newPendingPromise r w').1).
  cbn in IH. rewrite Hpe, Hpr in IH |- *. specialize (IH eq_refl eq_refl).
  destruct (awaitResponses reqs _) as [w2 ps].
  destruct (awaitResponses reqs _) as [w2' ps'].
  cbn in *. by destruct IH as (-> & -> & ->).
Qed.

Lemma send_same_core m (w : World E) (w' : World E') :
  pending w = pending w' → promises w = promises w' →
  pending (send m w) = pending (send m w')
  ∧ promises (send m w) = promises (send m w').
Proof.
  intros Hpe Hpr. unfold send. destruct (isResponseMessage m); [|done].
  rewrite Hpe. destruct (pending w' !! msg_id m); [|done].
  cbn. by rewrite Hpr.
Qed.

Lemma sends_same_core sent (w : World E) (w' : World E') :
  pending w = pending w' → promises w = promises w' →
  promises (foldl (λ w' out, send out w') w sent)
  = promises (foldl (λ w' out, send out w') w' sent).
Proof.
  revert w w'. induction sent as [|m sent IH]; intros w w' Hpe Hpr; cbn; [done|].
  destruct (send_same_core m w w' Hpe Hpr) as [Hpe' Hpr']. by apply IH.
Qed.

(** X7. The reply depends on the batch through its requests only and on
    the adapter through its promises only: two invocations with the same
    requests on adapters whose promise heaps agree get the same reply from
    the same sends, whatever notifications or response-shaped messages the
    batches hold besides, whatever the tables held before, and whatever
    engines are attached. *)
Theorem reply_depends_on_requests (w : World E) (w' : World E') ms ms' sent :
  requestsOf ms = requestsOf ms' →
  promises w = promises w' →
  returned (handleJSONRPCMessages ms w).2
    (foldl (λ w' out, send out w') (handleJSONRPCMessages ms w).1 sent)
  = returned (handleJSONRPCMessages ms' w').2
      (foldl (λ w' out, send out w') (handleJSONRPCMessages ms' w').1 sent).
Proof.
  intros Hreqs Hpr.
  destruct (decide (requestsOf ms = [])) as [Hr|Hr].
  - rewrite (handle_no_requests ms w Hr).
    by rewrite (handle_no_requests ms' w') by (by rewrite <- Hreqs).
  - rewrite (handle_requests ms w Hr).
    rewrite (handle_requests ms' w') by (by rewrite <- Hreqs).
    cbn [fst snd]. rewrite <- Hreqs, <- Hpr. unfold returned. do 2 f_equal.
    destruct (handle_dispatched ms w) as [Hpe1 Hpr1].
    destruct (handle_dispatched ms' w') as [Hpe2 Hpr2].
    destruct (awaitResponses_same_core (requestsOf ms)
                (dispatch ms (_startFreshSession w))
                (dispatch ms' (_startFreshSession w'))) as (Hpe3 & Hpr3 & _).
    { by rewrite Hpe1, Hpe2. }
    { by rewrite Hpr1, Hpr2. }
    by apply sends_same_core.
Qed.

End TransportInputs.

(** ** Further properties of the bridge *)

Section BridgeExtras.

Variable stringifyError : JSONRPCError → string.
Variable stringifyMessage : JSONRPCMessage → string.
Variable stringifyMessages : list JSONRPCMessage → string.
Variable Buffer_from_base64 : string → option string.
Variable JSON_parse : string → option JSON.
Variable JSONRPCMessageSchema : JSON → option JSONRPCMessage.

Local Abbreviation before' :=
  (before stringifyError Buffer_from_base64 JSON_parse JSONRPCMessageSchema).
Local Abbreviation afterResponse' :=
  (afterResponse stringifyMessage stringifyMessages).
Local Abbreviation mentionsJSON value :=
  (∃ v pre post, value = Some v ∧ v = (pre +:+ "application/json" +:+ post)%string).

Lemma lacksJSON_mentions (value : option string) :
  lacksJSON value = false ↔ mentionsJSON value.
Proof.
  destruct value as [v|]; cbn.
  - rewrite negb_false_iff, includes_spec. split.
    + intros (pre & post & ->). by eexists _, pre, post.
    + intros (? & pre & post & [= <-] & ->). by exists pre, post.
  - split; [done | by intros (? & ? & ? & ? & _)].
Qed.

(** X8. Which refusal a request gets is decided by plain substring tests on
    the two header values: 406 exactly when the accept value is missing or
    does not contain the text application/json anywhere, 415 exactly when
    the accept value contains it and the content-type value does not, 422
    exactly when both contain it. *)
Theorem refusal_status_iff (event : RequestEvent) (context : RequestContext) err :
  (before' event context).2 = inl err →
  (statusCode err = 406 ↔ ¬ mentionsJSON (acceptHeaderValue event))
  ∧ (statusCode err = 415
     ↔ mentionsJSON (acceptHeaderValue event)
       ∧ ¬ mentionsJSON (contentTypeHeaderValue event))
  ∧ (statusCode err = 422
     ↔ mentionsJSON (acceptHeaderValue event)
       ∧ mentionsJSON (contentTypeHeaderValue event)).
Proof.
  unfold before. rewrite <- !lacksJSON_mentions.
  destruct (lacksJSON (acceptHeaderValue event)).
  { intros [= <-]. cbn. intuition (try discriminate; try lia; auto). }
  destruct (lacksJSON (contentTypeHeaderValue event)).
  { intros [= <-]. cbn. intuition (try discriminate; try lia; auto). }
  destruct (parseBody _ _ _ _); [done|].
  intros [= <-]. cbn. intuition (try discriminate; try lia; auto).
Qed.

(** X9. The lower-case key wins: when the headers have the key accept, the
    key Accept is never read, and likewise content-type before
    Content-Type, whatever the second key holds. *)
Theorem lowercase_key_first (hs : gmap string string) (b : option string)
    (f : bool) (context : RequestContext) v x :
  (hs !! "accept"%string = Some v →
   before' (mkEvent (Some (<["Accept"%string := x]> hs)) b f) context
   = before' (mkEvent (Some hs) b f) context)
  ∧ (hs !! "content-type"%string = Some v →
     before' (mkEvent (Some (<["Content-Type"%string := x]> hs)) b f) context
     = before' (mkEvent (Some hs) b f) context).
Proof.
  split; intros Hv; unfold before, parseBody, acceptHeaderValue,
    contentTypeHeaderValue; cbn.
  - rewrite (lookup_insert_ne hs "Accept"%string "accept"%string) by done.
    rewrite (lookup_insert_ne hs "Accept"%string "content-type"%string) by done.
    rewrite (lookup_insert_ne hs "Accept"%string "Content-Type"%string) by done.
    by rewrite Hv.
  - rewrite (lookup_insert_ne hs "Content-Type"%string "accept"%string) by done.
    rewrite (lookup_insert_ne hs "Content-Type"%string "Accept"%string) by done.
    rewrite (lookup_insert_ne hs "Content-Type"%string "content-type"%string) by done.
    by rewrite Hv.
Qed.

(** X10. What [before] stores is the image of the parsed items, in order:
    when it does not throw, the headers passed both tests, the body was
    there, decoded when flagged, parsed, and the stored sequence has one
    message per item, each the schema's reading of its item. *)
Theorem stored_messages_are_items (event : RequestEvent) (context : RequestContext) :
  (before' event context).2 = inr tt →
  ∃ b d v messages,
    body event = Some b
    ∧ (if isBase64Encoded event then Buffer_from_base64 b = Some d else d = b)
    ∧ JSON_parse d = Some v
    ∧ Forall2 (λ x m, JSONRPCMessageSchema x = Some m)
        (match v with JArray l => l | _ => [v] end) messages
    ∧ length messages = length (match v with JArray l => l | _ => [v] end)
    ∧ (before' event context).1 = mkContext (Some messages).
Proof.
  unfold before.
  destruct (lacksJSON (acceptHeaderValue event)); [done|].
  destruct (lacksJSON (contentTypeHeaderValue event)); [done|].
  destruct (parseBody _ _ _ event) as [messages|] eqn:Hp; [|done].
  intros _. unfold parseBody, transformBody in Hp.
  destruct (body event) as [b|]; [|done]. cbn in Hp.
  destruct (if isBase64Encoded event then Buffer_from_base64 b else Some b)
    as [d|] eqn:Hd; [|done]. cbn in Hp.
  destruct (JSON_parse d) as [v|] eqn:Hv; [|done]. cbn in Hp.
  apply mapM_Some in Hp.
  exists b, d, v, messages. split_and!; try done.
  - destruct (isBase64Encoded event); [done | by injection Hd].
  - symmetry. by eapply Forall2_length.
Qed.

(** X11. An empty array is a valid body: [before] stores the empty
    sequence, [after] answers 202 with an empty body at once, and the
    engine is not called. *)
Theorem empty_batch_accepted {E : Type} (event : RequestEvent)
    (context : RequestContext) (w : World E) (response : ResponseSlot) b d :
  lacksJSON (acceptHeaderValue event) = false →
  lacksJSON (contentTypeHeaderValue event) = false →
  body event = Some b →
  (if isBase64Encoded event then Buffer_from_base64 b = Some d else d = b) →
  JSON_parse d = Some (JArray []) →
  before' event context = (mkContext (Some []), inr tt)
  ∧ ∃ w', after (mkContext (Some [])) w = Some (w', None)
      ∧ engine w' = engine w
      ∧ promises w' = promises w
      ∧ afterResponse' response None w'
        = Some (mkResponse 202 "" (spread (initialResponse response))).
Proof.
  intros Ha Hc Hb Hd Hv. split.
  - unfold before, parseBody, transformBody. rewrite Ha, Hc, Hb. cbn.
    assert ((if isBase64Encoded event then Buffer_from_base64 b else Some b) = Some d)
      as -> by (destruct (isBase64Encoded event); [done | by rewrite Hd]).
    cbn. by rewrite Hv.
  - exists (_startFreshSession w). split_and!; done.
Qed.

(** X12. The status tells whether the batch had requests: whenever [after]
    has produced its response, the status is 202 with an empty body if the
    batch had no request, and 200 if it had one. *)
Theorem status_tells_requests {E : Type} (w : World E) ms (cs : list (Call E))
    (response : ResponseSlot) resp :
  afterResponse' response (handleJSONRPCMessages ms w).2
    (foldl run (handleJSONRPCMessages ms w).1 cs) = Some resp →
  (requestsOf ms = [] → responseStatusCode resp = 202 ∧ responseBody resp = ""%string)
  ∧ (requestsOf ms ≠ [] → responseStatusCode resp = 200).
Proof.
  unfold afterResponse. intros Hresp. split.
  - intros Hr. rewrite handle_no_requests in Hresp by done. cbn in Hresp.
    by injection Hresp as <-.
  - intros Hr. rewrite handle_requests in Hresp by done. cbn [fst snd] in Hresp.
    unfold returned in Hresp.
    destruct (Promise_all _ _) as [rs|] eqn:Hall; [|done].
    cbn in Hresp. injection Hresp as <-.
    apply mapM_Some, Forall2_length in Hall. rewrite length_seq in Hall.
    unfold render, pickReply.
    destruct rs as [|r1 [|r2 rs]]; cbn; try done.
    destruct (requestsOf ms); [done | discriminate Hall].
Qed.

(** X13. From request to response: when [before] has not thrown, the
    context holds a sequence of messages; if its requests carry distinct
    ids and the engine has sent a message for each, [after] answers 200 and
    the body is the serialisation of the first message sent for each
    request, in request order: of the message itself when there is one
    request, of the sequence when there are several. *)
Theorem request_to_response {E : Type} (event : RequestEvent)
    (context context' : RequestContext) (w : World E) sent (response : ResponseSlot) :
  before' event context = (context', inr tt) →
  ∃ ms, jsonRPCMessages context' = Some ms
    ∧ (requestsOf ms ≠ [] →
       NoDup (msg_id <$> requestsOf ms) →
       (∀ q, q ∈ requestsOf ms → ∃ r, r ∈ sent ∧ msg_id r = msg_id q) →
       ∃ w1 awaited rs,
         after context' w = Some (w1, awaited)
         ∧ Forall2 (λ q r, answerTo (msg_id q) sent = Some r) (requestsOf ms) rs
         ∧ afterResponse' response awaited (foldl (λ w' out, send out w') w1 sent)
           = Some (mkResponse 200
                     (match rs with
                      | [r] => stringifyMessage r
                      | _ => stringifyMessages rs
                      end)
                     (spread (initialResponse response)))).
Proof.
  unfold before.
  destruct (lacksJSON (acceptHeaderValue event)); [done|].
  destruct (lacksJSON (contentTypeHeaderValue event)); [done|].
  destruct (parseBody _ _ _ event) as [ms|]; [|done].
  intros [= <-]. exists ms. split; [done|].
  intros Hne Hnd Hall.
  assert (is_Some (mapM (λ q, answerTo (msg_id q) sent) (requestsOf ms))) as [rs Hrs].
  { apply mapM_is_Some, Forall_forall. intros q Hq.
    destruct (Hall q Hq) as (r & Hr & Hid). by eapply answerTo_is_Some. }
  exists (handleJSONRPCMessages ms w).1, (handleJSONRPCMessages ms w).2, rs.
  split_and!.
  - unfold after. cbn. by destruct (handleJSONRPCMessages ms w).
  - by apply mapM_Some.
  - unfold afterResponse. rewrite handle_then_sends, Hrs by done. cbn. f_equal.
    apply mapM_Some, Forall2_length in Hrs.
    unfold render, pickReply.
    destruct rs as [|r1 [|r2 rs]]; cbn; try done.
    destruct (requestsOf ms); [done | discriminate Hrs].
Qed.

End BridgeExtras.

(** ** Properties of the API key authorizer *)

Section AuthorizerProperties.

Import Authorizer.

Variable env : gmap string string.
Variable now : string.

(** X14. The three outcomes of the authorizer.  It calls back with a policy
    exactly when the variable API_KEY is set to the token of the event and
    the method ARN is not empty, and the policy is then the single Allow
    statement for execute-api:Invoke on that ARN, for the principal user.
    It calls back with Unauthorized exactly when the token is not the
    value of the variable, in particular always when the variable is not
    set.  It throws, without calling back, exactly when the token matches
    and the method ARN is empty. *)
Theorem authorizer_outcomes (event : APIGatewayTokenAuthorizerEvent) :
  (∀ policy, handler env now event = CallbackPolicy policy
     ↔ env !! "API_KEY"%string = Some (authorizationToken event)
       ∧ methodArn event ≠ ""%string
       ∧ policy = mkAuthorizerResult "user"
                    (mkPolicyDocument "2012-10-17"
                       [mkStatement "execute-api:Invoke" Allow (methodArn event)])
                    (Some (mkAuthContext true now)))
  ∧ (∀ error, handler env now event = CallbackError error
       ↔ env !! "API_KEY"%string ≠ Some (authorizationToken event)
         ∧ error = "Unauthorized"%string)
  ∧ (∀ message, handler env now event = Threw message
       ↔ env !! "API_KEY"%string = Some (authorizationToken event)
         ∧ methodArn event = ""%string
         ∧ message = "Effect and resource are required"%string).
Proof.
  unfold handler, generateAllow, generatePolicy, API_KEY.
  destruct (decide (Some (authorizationToken event) = env !! "API_KEY"%string))
    as [Heq|Hne].
  - rewrite bool_decide_eq_true_2 by done.
    destruct (methodArn event) as [|a arn] eqn:Harn; cbn.
    + split_and!.
      * intros policy. split; [done | by intros (_ & ? & _)].
      * intros error. split; [done | by intros [? _]].
      * intros message. split; [by intros [= <-] | by intros (_ & _ & ->)].
    + split_and!.
      * intros policy. split; [by intros [= <-] | by intros (_ & _ & ->)].
      * intros error. split; [done | by intros [? _]].
      * intros message. split; [done | by intros (_ & ? & _)].
  - rewrite bool_decide_eq_false_2 by done. split_and!.
    + intros policy. split; [done | by intros [? _]].
    + intros error. split; [by intros [= <-] | by intros [_ ->]].
    + intros message. split; [done | by intros [? _]].
Qed.

End AuthorizerProperties.

(** ** Properties of the code review tool *)

Section CodeReviewProperties.

Import CodeReview.

Variable env : gmap string string.
Variable fetch : string → string → Thrown + FetchResponse.
Variable stringifyCode : string → string.
Variable stringifyData : JSON → Thrown + option string.

(** X15. The tool never throws and always returns one text item.  The text
    is the serialised data of the service's answer only when the endpoint
    variable is set and not empty, the fetch on it with the serialised code
    returned a response, the response was ok, its body parsed and the data
    serialised; in every other case the text is an error report that
    starts with the fixed prefix. *)
Theorem code_review_outcomes (code : string) :
  ∃ text, codeReview env fetch stringifyCode stringifyData code = mkToolResult [text]
    ∧ ((∃ endpoint response result,
          env !! "STACK_ENDPOINT"%string = Some endpoint
          ∧ endpoint ≠ ""%string
          ∧ fetch endpoint (stringifyCode code) = inr response
          ∧ ok response = true
          ∧ json response = inr result
          ∧ stringifyData result = inr text)
       ∨ ∃ errorMessage,
           text = Some ("Error performing code review: " +:+ errorMessage)%string).
Proof.
  unfold codeReview, review, Authorizer.STACK_ENDPOINT.
  destruct (env !! "STACK_ENDPOINT"%string) as [endpoint|] eqn:Henv;
    [|eexists; split; [done | right; by eexists]].
  destruct endpoint as [|a endpoint]; cbn [Authorizer.truthy negb];
    [eexists; split; [done | right; by eexists]|].
  destruct (fetch _ _) as [thrown|response] eqn:Hfetch;
    [destruct thrown; eexists; (split; [done | right; by eexists])|].
  destruct (ok response) eqn:Hok; cbn [negb];
    [|eexists; split; [done | right; by eexists]].
  destruct (json response) as [thrown|result] eqn:Hjson;
    [destruct thrown; eexists; (split; [done | right; by eexists])|].
  destruct (stringifyData result) as [thrown|text] eqn:Hdata;
    [destruct thrown; eexists; (split; [done | right; by eexists])|].
  exists text. split; [done|]. left. by exists (String a endpoint), response, result.
Qed.

End CodeReviewProperties.

Section CodeReviewFailFast.

Import CodeReview.

(** X16. The tool fails fast.  Without a non-empty endpoint variable it
    reports that the variable is not defined whatever [fetch] would do:
    the service is not called.  When the service answers with a status
    that is not ok, it reports the status whatever the body holds: the
    body is not read. *)
Theorem code_review_fails_fast (env : gmap string string)
    (fetch fetch' : string → string → Thrown + FetchResponse)
    (stringifyCode : string → string)
    (stringifyData stringifyData' : JSON → Thrown + option string)
    (code : string) :
  ((env !! "STACK_ENDPOINT"%string = None
    ∨ env !! "STACK_ENDPOINT"%string = Some ""%string) →
   codeReview env fetch stringifyCode stringifyData code
   = mkToolResult
       [Some "Error performing code review: STACK_ENDPOINT environment variable is not defined"%string]
   ∧ codeReview env fetch' stringifyCode stringifyData' code
     = codeReview env fetch stringifyCode stringifyData code)
  ∧ (∀ endpoint st body body',
       env !! "STACK_ENDPOINT"%string = Some endpoint →
       endpoint ≠ ""%string →
       fetch endpoint (stringifyCode code) = inr (mkFetchResponse false st body) →
       fetch' endpoint (stringifyCode code) = inr (mkFetchResponse false st body') →
       codeReview env fetch stringifyCode stringifyData code
       = mkToolResult
           [Some ("Error performing code review: "
                  +:+ "Code review service responded with status: " +:+ st)%string]
       ∧ codeReview env fetch' stringifyCode stringifyData' code
         = codeReview env fetch stringifyCode stringifyData code).
Proof.
  unfold codeReview, review, Authorizer.STACK_ENDPOINT. split.
  - by intros [-> | ->].
  - intros endpoint st body body' -> Hne -> ->.
    by destruct endpoint.
Qed.

End CodeReviewFailFast.

(** ** The further properties on concrete invocations *)

Lemma batch_has_requests : requestsOf batch ≠ [].
Proof. intros H. vm_compute in H. discriminate H. Qed.

Lemma batch_ids_distinct : NoDup (msg_id <$> requestsOf batch).
Proof. apply (bool_decide_unpack _). vm_compute. exact I. Qed.

Lemma batch_answered :
  ∀ q, q ∈ requestsOf batch →
    ∃ r, r ∈ [response 2 "b"; response 1 "a"] ∧ msg_id r = msg_id q.
Proof.
  intros q Hq.
  assert (q = request "tools/call" 1 ∨ q = request "tools/list" 2) as [->| ->].
  { vm_compute in Hq. apply elem_of_cons in Hq as [Hq|Hq]; [by left|].
    apply elem_of_cons in Hq as [Hq|Hq]; [by right|].
    by apply not_elem_of_nil in Hq. }
  - exists (response 1 "a"). split; [|reflexivity].
    apply list_elem_of_further, list_elem_of_here.
  - exists (response 2 "b"). split; [|reflexivity]. apply list_elem_of_here.
Qed.

Lemma suspended_after_dispatch_witness :
  let w := fresh (Some eager) tt in
  returned (handleJSONRPCMessages batch w).2 (handleJSONRPCMessages batch w).1 = None.
Proof.
  destruct (suspended_after_dispatch (fresh (Some eager) tt) batch batch_has_requests)
    as [_ H].
  exact H.
Defined.

Lemma returned_iff_all_answered_witness :
  let w := fresh (Some eager) tt in
  is_Some (returned (handleJSONRPCMessages batch w).2
             (foldl (λ w' out, send out w') (handleJSONRPCMessages batch w).1
                [response 2 "b"; response 1 "a"])).
Proof.
  destruct (returned_iff_all_answered (fresh (Some eager) tt) batch
              [response 2 "b"; response 1 "a"] batch_has_requests batch_ids_distinct)
    as [_ H].
  exact (H batch_answered).
Defined.

Lemma pending_are_unanswered_witness :
  let w := fresh (Some eager) tt in
  pending (foldl (λ w' out, send out w') (handleJSONRPCMessages batch w).1
             [response 2 "b"; response 1 "a"]) = ∅.
Proof.
  destruct (pending_are_unanswered (fresh (Some eager) tt) batch
              [response 2 "b"; response 1 "a"] batch_has_requests batch_ids_distinct)
    as [_ H].
  exact (H batch_answered).
Defined.

Lemma send_again_dropped_witness :
  let w := (handleJSONRPCMessages batch (fresh (Some eager) tt)).1 in
  send (response 1 "again") (send (response 1 "a") w) = send (response 1 "a") w.
Proof.
  exact (send_again_dropped (handleJSONRPCMessages batch (fresh (Some eager) tt)).1
           (response 1 "a") (response 1 "again") eq_refl).
Defined.

Lemma reset_abandons_pending_witness :
  let w := (handleJSONRPCMessages batch (fresh (Some eager) tt)).1 in
  let w' := foldl run (handleJSONRPCMessages [notification "ping"] w).1
              [CallSend (response 1 "a"); CallSend (response 2 "b")] in
  promises w' !! 0%nat = Some None
  ∧ ∀ ps, 0%nat ∈ ps → returned (Some ps) w' = None.
Proof.
  exact (reset_abandons_pending (handleJSONRPCMessages batch (fresh (Some eager) tt)).1
           0 [notification "ping"]
           [CallSend (response 1 "a"); CallSend (response 2 "b")] eq_refl).
Defined.

Lemma reply_is_final_witness :
  let h := handleJSONRPCMessages [request "tools/call" 7] (fresh (Some eager) tt) in
  returned h.2
    (foldl run (send (response 7 "done") h.1)
       [CallHandle batch; CallSend (response 7 "again"); CallStart])
  = Some (Single (response 7 "done")).
Proof.
  apply (reply_is_final
           (send (response 7 "done")
              (handleJSONRPCMessages [request "tools/call" 7] (fresh (Some eager) tt)).1)).
  by vm_compute.
Defined.

Lemma reply_depends_on_requests_witness :
  let w := fresh (Some recorder) [] in
  let w' := mkWorld (mkTransport true {[ Some (IdNum 9) := 0%nat ]} (Some eager)) [] tt in
  let sent := [response 2 "b"; response 1 "a"] in
  returned (handleJSONRPCMessages batch w).2
    (foldl (λ w' out, send out w') (handleJSONRPCMessages batch w).1 sent)
  = returned (handleJSONRPCMessages (requestsOf batch) w').2
      (foldl (λ w' out, send out w') (handleJSONRPCMessages (requestsOf batch) w').1 sent).
Proof.
  apply (reply_depends_on_requests (fresh (Some recorder) [])
           (mkWorld (mkTransport true {[ Some (IdNum 9) := 0%nat ]} (Some eager)) [] tt)
           batch (requestsOf batch)).
  - by vm_compute.
  - reflexivity.
Defined.

Lemma refusal_status_iff_witness :
  statusCode (mkHttpError 406 ""%string) = 406
  ↔ ¬ ∃ v pre post,
        acceptHeaderValue (mkEvent None None false) = Some v
        ∧ v = (pre +:+ "application/json" +:+ post)%string.
Proof.
  destruct (refusal_status_iff noText decodeNothing parseTwoNumbers numbersAsRequests
              (mkEvent None None false) (mkContext None) (mkHttpError 406 ""%string)
              eq_refl) as [H _].
  exact H.
Defined.

Lemma stored_messages_are_items_witness :
  let event := mkEvent (Some headersOK) (Some "[1,2]"%string) false in
  ∃ b d v messages,
    body event = Some b
    ∧ (if isBase64Encoded event then decodeNothing b = Some d else d = b)
    ∧ parseTwoNumbers d = Some v
    ∧ Forall2 (λ x m, numbersAsRequests x = Some m)
        (match v with JArray l => l | _ => [v] end) messages
    ∧ length messages = length (match v with JArray l => l | _ => [v] end)
    ∧ (before noText decodeNothing parseTwoNumbers numbersAsRequests
         event (mkContext None)).1 = mkContext (Some messages).
Proof.
  apply (stored_messages_are_items noText decodeNothing parseTwoNumbers
           numbersAsRequests
           (mkEvent (Some headersOK) (Some "[1,2]"%string) false) (mkContext None)).
  by vm_compute.
Defined.

Lemma empty_batch_accepted_witness :
  before noText decodeNothing parseEmptyArray numbersAsRequests
    (mkEvent (Some headersOK) (Some "[]"%string) false) (mkContext None)
  = (mkContext (Some []), inr tt).
Proof.
  destruct (empty_batch_accepted noText noText noText decodeNothing parseEmptyArray
              numbersAsRequests
              (mkEvent (Some headersOK) (Some "[]"%string) false) (mkContext None)
              (fresh (Some eager) tt) ResponseNull "[]"%string "[]"%string)
    as [H _]; try reflexivity; by vm_compute.
Defined.

Lemma status_tells_requests_witness :
  responseStatusCode (mkResponse 200 ""%string []) = 200.
Proof.
  destruct (status_tells_requests noText noText (fresh (Some eager) tt) batch
              [CallSend (response 2 "b"); CallSend (response 1 "a")]
              ResponseUndefined (mkResponse 200 ""%string []))
    as [_ H]; [by vm_compute|].
  exact (H batch_has_requests).
Defined.

Lemma request_to_response_witness :
  let context' := mkContext (Some [request "ping" 1; request "ping" 2]) in
  ∃ w1 awaited,
    after context' (fresh (Some eager) tt) = Some (w1, awaited)
    ∧ afterResponse noText noText ResponseNull awaited
        (foldl (λ w' out, send out w') w1 [response 2 "b"; response 1 "a"])
      = Some (mkResponse 200 ""%string []).
Proof.
  destruct (request_to_response noText noText noText decodeNothing parseTwoNumbers
              numbersAsRequests
              (mkEvent (Some headersOK) (Some "[1,2]"%string) false) (mkContext None)
              (mkContext (Some [request "ping" 1; request "ping" 2]))
              (fresh (Some eager) tt) [response 2 "b"; response 1 "a"] ResponseNull)
    as (ms & Hms & Himp); [by vm_compute|].
  injection Hms as <-.
  destruct Himp as (w1 & awaited & rs & Hafter & _ & Hresp).
  - intros H. vm_compute in H. discriminate H.
  - apply (bool_decide_unpack _). vm_compute. exact I.
  - intros q Hq.
    assert (q = request "ping" 1 ∨ q = request "ping" 2) as [->| ->].
    { vm_compute in Hq. apply elem_of_cons in Hq as [Hq|Hq]; [by left|].
      apply elem_of_cons in Hq as [Hq|Hq]; [by right|].
      by apply not_elem_of_nil in Hq. }
    + exists (response 1 "a"). split; [|reflexivity].
      apply list_elem_of_further, list_elem_of_here.
    + exists (response 2 "b"). split; [|reflexivity]. apply list_elem_of_here.
  - exists w1, awaited. split; [exact Hafter|].
    rewrite Hresp. by destruct rs as [|? [|? ?]].
Defined.

Section Suspension.

Context {E : Type}.
Implicit Types (w : World E) (ms : list JSONRPCMessage).

(** X17. The state an invocation leaves when it suspends, for any batch and
    any earlier state: the promises that existed are as they were, one
    pending promise per request has been added after them, and the table
    has an entry exactly for the ids of the batch's requests. *)
Theorem state_on_suspension w ms :
  promises (handleJSONRPCMessages ms w).1
  = promises w ++ replicate (length (requestsOf ms)) None
  ∧ ∀ k, is_Some (pending (handleJSONRPCMessages ms w).1 !! k)
         ↔ k ∈ msg_id <$> requestsOf ms.
Proof.
  destruct (handle_dispatched ms w) as [Hpe Hpr]. split.
  - destruct (decide (requestsOf ms = [])) as [Hr|Hr].
    + rewrite handle_no_requests, Hr by done. cbn. by rewrite Hpr, app_nil_r.
    + rewrite handle_requests by done. cbn [fst].
      destruct (awaitResponses_promises (requestsOf ms)
                  (dispatch ms (_startFreshSession w))) as [_ ->].
      by rewrite Hpr.
  - intros k. split.
    + intros [p Hp]. destruct (decide (k ∈ msg_id <$> requestsOf ms)); [done|].
      by rewrite handle_pending_other in Hp.
    + intros Hin. destruct (last_occurrence _ k Hin) as (l & Hl & Hlast).
      rewrite (handle_pending_last ms w l k) by done. by eexists.
Qed.

End Suspension.
